(** * Verification of [generate-wxt-dir.ts]

    A shallow embedding of
    [packages/wxt/src/core/utils/building/generate-wxt-dir.ts], the generator
    of the declaration files of the [.wxt] directory, and the properties of
    the rendered files.

    JavaScript strings are modelled as [string] (sequences of 8-bit code
    units, compared unit by unit as [Array.prototype.sort] compares UTF-16
    units), arrays as [list], plain objects as the list of their properties
    in enumeration order, the file system as a finite map from paths to
    contents and a set of directories, together with a journal of the
    mutations performed. *)

From Stdlib Require Import String Ascii List Bool Arith NArith Lia.
From Stdlib Require Import Sorting.Mergesort Sorting.Sorted Sorting.Permutation.
From Stdlib Require Import Orders OrdersEx.
From stdpp Require Import gmap strings.
Import ListNotations.
Open Scope string_scope.
Open Scope list_scope.

(** ** ECMAScript primitives used by the generator *)

Module JS.

(** The characters that cannot be written inside a literal. *)
Definition LF : string := String "010"%char "".
Definition DQ : string := String "034"%char "".
Definition BQ : string := String "096"%char "".

(** [`"${s}"`] *)
Definition quoted (s : string) : string := DQ +:+ s +:+ DQ.

(** [Array.prototype.join] on an array of strings. *)
Definition join (sep : string) (l : list string) : string :=
  String.concat sep l.

(** A multi-line template literal: its lines, separated by line feeds. *)
Definition text (lines : list string) : string := join LF lines.

(** [ToBoolean] on a string: only the empty string is falsy. *)
Definition truthy (s : string) : bool :=
  match s with EmptyString => false | String _ _ => true end.

(** [a || b] on strings. *)
Definition or_else (a b : string) : string := if truthy a then a else b.

(** [a ?? b] where [a] may be [undefined]. *)
Definition nullish {A} (a : option A) (b : A) : A :=
  match a with Some x => x | None => b end.

(** *** [Array.prototype.sort] with the default comparator

    The default comparator orders strings by their code units; the order
    is total and antisymmetric, so the sorted array is the one sorted
    permutation of the input (see [sorted_permutation_unique]). *)
Module StringLe <: TotalLeBool'.
Definition t := string.
Definition leb := String.leb.
Lemma leb_total (a b : t) : leb a b = true \/ leb b a = true.
Proof. apply String.leb_total. Qed.
End StringLe.

Module StringSort := Sort StringLe.

Definition sort (l : list string) : list string := StringSort.sort l.

Definition le (a b : string) : Prop := String.leb a b = true.

(** *** [String.prototype.replace] with a string pattern

    The first occurrence of the pattern is replaced; in the replacement
    text the sequences [$$], [$&], [$`] and [$'] are substitution patterns
    (ECMA-262, GetSubstitution).  With a string pattern there are no
    captures, so [$1] ... [$99] and [$<] stand for themselves. *)
Fixpoint getSubstitution (matched before after replacement : string)
  : string :=
  match replacement with
  | EmptyString => EmptyString
  | String c rest =>
      if Ascii.eqb c "$"%char then
        match rest with
        | String d rest' =>
            if Ascii.eqb d "$"%char then
              String "$"%char (getSubstitution matched before after rest')
            else if Ascii.eqb d "&"%char then
              matched +:+ getSubstitution matched before after rest'
            else if Ascii.eqb d "096"%char then
              before +:+ getSubstitution matched before after rest'
            else if Ascii.eqb d "'"%char then
              after +:+ getSubstitution matched before after rest'
            else String c (getSubstitution matched before after rest)
        | EmptyString => String c EmptyString
        end
      else String c (getSubstitution matched before after rest)
  end.

Fixpoint drop (n : nat) (s : string) : string :=
  match n, s with
  | S n', String _ s' => drop n' s'
  | _, _ => s
  end.

(** The text before and after the first occurrence of [pat] in [s]. *)
Fixpoint splitAtFirst (pat s : string) : option (string * string) :=
  if String.prefix pat s then Some (EmptyString, drop (String.length pat) s)
  else
    match s with
    | EmptyString => None
    | String c s' =>
        match splitAtFirst pat s' with
        | Some (b, a) => Some (String c b, a)
        | None => None
        end
    end.

Definition replace (s pat replacement : string) : string :=
  match splitAtFirst pat s with
  | None => s
  | Some (before, after) =>
      before +:+ getSubstitution pat before after replacement +:+ after
  end.

(** [s] occurs in [t]. *)
Definition includes (t s : string) : Prop :=
  exists pre post, t = pre +:+ s +:+ post.

(** *** Plain objects

    An object is represented by its own properties in the order in which
    [Object.entries], [for ... in] and [JSON.stringify] enumerate them
    (OrdinaryOwnPropertyKeys): array-index keys first, by ascending numeric
    value, then the other keys in creation order.  [define] and [set] keep
    that order. *)
Definition object (V : Type) : Type := list (string * V).

Definition isDigit (c : ascii) : bool :=
  (Ascii.leb "0" c && Ascii.leb c "9")%bool.

Fixpoint digitsValue (acc : N) (s : string) : option N :=
  match s with
  | EmptyString => Some acc
  | String c r =>
      if isDigit c
      then digitsValue (acc * 10 + (N_of_ascii c - 48))%N r
      else None
  end.

(** The numeric value of a key that is an array index: a canonical decimal
    numeral below [2^32 - 1]. *)
Definition arrayIndex (k : string) : option N :=
  match k with
  | EmptyString => None
  | String c r =>
      if (Ascii.eqb c "0" && negb (String.eqb r EmptyString))%bool then None
      else
        match digitsValue 0 k with
        | Some n => if (n <? 4294967295)%N then Some n else None
        | None => None
        end
  end.

(** [k] is enumerated before the existing key [k']. *)
Definition precedes (k k' : string) : bool :=
  match arrayIndex k, arrayIndex k' with
  | Some n, Some n' => (n <? n')%N
  | Some _, None => true
  | None, _ => false
  end.

(** CreateDataProperty: the property is given the value, at its place if
    it exists and at the place its key is enumerated at if it is new. *)
Fixpoint define {V} (o : object V) (k : string) (v : V) : object V :=
  match o with
  | [] => [(k, v)]
  | (k', v') :: o' =>
      if String.eqb k' k then (k', v) :: o'
      else if precedes k k' then (k, v) :: (k', v') :: o'
      else (k', v') :: define o' k v
  end.

(** [o[k] = v], for an object created by a literal and a primitive value:
    the assignment defines the property, except for the key [__proto__],
    which reaches the setter of [Object.prototype]; the setter ignores a
    value that is neither an object nor [null], and no property is
    created. *)
Definition set {V} (o : object V) (k : string) (v : V) : object V :=
  if String.eqb k "__proto__" then o else define o k v.

(** [o[k]] *)
Fixpoint get {V} (o : object V) (k : string) : option V :=
  match o with
  | [] => None
  | (k', v') :: o' => if String.eqb k' k then Some v' else get o' k
  end.

Definition keys {V} (o : object V) : list string := map fst o.

(** *** JSON values and [JSON.stringify(value, null, 2)] *)
#[local] Set Warnings "-register-all".
Inductive json : Type :=
| JNull
| JBool (b : bool)
| JNum (literal : string)
| JStr (s : string)
| JArr (items : list json)
| JObj (props : list (string * json)).

Definition hexDigit (n : N) : ascii :=
  if (n <? 10)%N then ascii_of_N (48 + n) else ascii_of_N (87 + n).

(** QuoteJSONString on one code unit. *)
Definition quoteUnit (c : ascii) : string :=
  let n := N_of_ascii c in
  if (n =? 34)%N then "\" +:+ DQ
  else if (n =? 92)%N then "\\"
  else if (n =? 8)%N then "\b"
  else if (n =? 9)%N then "\t"
  else if (n =? 10)%N then "\n"
  else if (n =? 12)%N then "\f"
  else if (n =? 13)%N then "\r"
  else if (n <? 32)%N then
    "\u00" +:+ String (hexDigit (n / 16)) (String (hexDigit (n mod 16)) "")
  else String c "".

Fixpoint quoteUnits (s : string) : string :=
  match s with
  | EmptyString => EmptyString
  | String c r => quoteUnit c +:+ quoteUnits r
  end.

Definition quoteJSONString (s : string) : string := quoted (quoteUnits s).

Definition gap : string := "  ".

Fixpoint stringify (indent : string) (v : json) : string :=
  match v with
  | JNull => "null"
  | JBool true => "true"
  | JBool false => "false"
  | JNum literal => literal
  | JStr s => quoteJSONString s
  | JArr [] => "[]"
  | JArr items =>
      "[" +:+ LF
      +:+ join ("," +:+ LF)
            (map (fun x => indent +:+ gap +:+ stringify (indent +:+ gap) x)
               items)
      +:+ LF +:+ indent +:+ "]"
  | JObj [] => "{}"
  | JObj props =>
      "{" +:+ LF
      +:+ join ("," +:+ LF)
            (map (fun kv =>
                    indent +:+ gap +:+ quoteJSONString (fst kv) +:+ ": "
                    +:+ stringify (indent +:+ gap) (snd kv))
               props)
      +:+ LF +:+ indent +:+ "}"
  end.

End JS.

(** ** The file system and asynchronous computations

    The store keeps the regular files and the directories; the journal
    records every mutation, so that "no write happened" is the statement that
    the journal did not grow.  An [Async] computation either returns or
    throws; the store it leaves behind is kept in both cases, as the effects
    of an aborted [async] function are. *)

Module Fs.

Inductive Event : Type :=
| Mkdir (dir : string)
| Write (file data : string).

Record FileSystem : Type := {
  files : gmap string string;
  dirs : gset string;
  journal : list Event
}.

Inductive Error : Type :=
| ENOENT (path : string)
| SyntaxError
| Failure (reason : string).

Inductive Completion (A : Type) : Type :=
| Return (a : A)
| Throw (e : Error).
Arguments Return {A} a.
Arguments Throw {A} e.

Definition Async (A : Type) : Type := FileSystem -> Completion A * FileSystem.

Definition ret {A} (a : A) : Async A := fun fs => (Return a, fs).

Definition throw {A} (e : Error) : Async A := fun fs => (Throw e, fs).

Definition bind {A B} (m : Async A) (k : A -> Async B) : Async B :=
  fun fs =>
    match m fs with
    | (Return a, fs') => k a fs'
    | (Throw e, fs') => (Throw e, fs')
    end.

(** A synchronous call that may throw, inside an [async] function. *)
Definition lift {A} (c : Completion A) : Async A := fun fs => (c, fs).

(** [mkdir -p]: the directories of [lineage], a directory preceded by its
    ancestors, are created where they are missing. *)
Definition mkdirs (lineage : list string) : Async unit :=
  fun fs =>
    match List.filter (fun dir => bool_decide (dir ∉ dirs fs)) lineage with
    | [] => (Return tt, fs)
    | missing =>
        (Return tt,
         {| files := files fs;
            dirs := list_to_set missing ∪ dirs fs;
            journal := journal fs ++ map Mkdir missing |})
    end.

(** [fs.readFile(file, 'utf-8')] *)
Definition readFile (file : string) : Async string :=
  fun fs =>
    match files fs !! file with
    | Some data => (Return data, fs)
    | None => (Throw (ENOENT file), fs)
    end.

(** [fs.writeFile(file, data)]: the directory of the file, [parent], has to
    exist. *)
Definition writeFile (parent file data : string) : Async unit :=
  fun fs =>
    if decide (parent ∈ dirs fs) then
      (Return tt,
       {| files := <[file := data]> (files fs);
          dirs := dirs fs;
          journal := journal fs ++ [Write file data] |})
    else (Throw (ENOENT file), fs).

End Fs.

Import Fs.

Declare Scope async_scope.
Delimit Scope async_scope with async.
Notation "x <- m ;; k" := (bind m (fun x => k))
  (at level 100, m at next level, right associativity) : async_scope.
Notation "m ;; k" := (bind m (fun _ => k))
  (at level 100, right associativity) : async_scope.
Open Scope async_scope.

(** ** The data the generator consumes *)

(** Modelled from the spec: the [Entrypoint] type of [~/types], of which the
    source only says that it is handed to [getEntrypointBundlePath] and
    [isHtmlEntrypoint]; the spec gives an entrypoint an identifier, an output
    location and a kind. *)
Module Entrypoint.
Inductive Kind : Type := Markup | Script.
Record t : Type := { name : string; outputDir : string; kind : Kind }.
End Entrypoint.

(** [Message] of [~/core/utils/i18n]: the fields the generator reads. *)
Module Message.
Record t : Type := {
  name : string;
  message : string;
  description : option string
}.
End Message.

(** The descriptors returned by [getGlobals] and [getEntrypointGlobals]. *)
Module Global.
Record t : Type := { name : string; type : string }.
End Global.

(** [Import] of unimport: the fields the generator reads. *)
Module Import_.
Record t : Type := { name : string; as_ : option string }.
End Import_.

(** The observable state of an unimport engine. *)
Record Unimport : Type := {
  getImports : list Import_.t;
  generateTypeDeclarations : string
}.

(** [EslintGlobalsPropValue] *)
Inductive EslintGlobalsPropValue : Type :=
| GlobalsBoolean (b : bool)
| Readonly
| Readable
| Writable
| Writeable.

Definition globalsPropValueJson (v : EslintGlobalsPropValue) : JS.json :=
  match v with
  | GlobalsBoolean b => JS.JBool b
  | Readonly => JS.JStr "readonly"
  | Readable => JS.JStr "readable"
  | Writable => JS.JStr "writable"
  | Writeable => JS.JStr "writeable"
  end.

Record Eslintrc : Type := {
  enabled : bool;
  filePath : string;
  globalsPropValue : EslintGlobalsPropValue
}.

Record WxtResolvedUnimportOptions : Type := { eslintrc : Eslintrc }.

Module WxtModule.
Inductive Origin : Type := local | node_module.
Record t : Type := { type : Origin; id : string; configKey : option string }.
End WxtModule.

(** [wxt.config]: the fields the generator reads.  [imports] is [None] for
    [imports: false]; [default_locale] is [manifest.default_locale]. *)
Record ResolvedConfig : Type := {
  root : string;
  srcDir : string;
  publicDir : string;
  wxtDir : string;
  typesDir : string;
  outBaseDir : string;
  outDir : string;
  imports : option WxtResolvedUnimportOptions;
  default_locale : option string;
  modules : list WxtModule.t;
  alias : JS.object string
}.

Record Wxt : Type := { config : ResolvedConfig }.

(** ** The collaborators

    The functions the source imports and this file does not define: [path]
    of Node, [JSON.parse], unimport and the helpers of [~/core/utils].  The
    generator is verified for every implementation of them; [Reference]
    below gives one, for the examples. *)
Class Collaborators : Type := {
  (* node:path *)
  resolve : list string -> string;
  relative : string -> string -> string;
  dirname : string -> string;
  (* ECMAScript *)
  JSON_parse : string -> option JS.json;
  (* unimport *)
  createUnimport : WxtResolvedUnimportOptions -> Unimport;
  scanImportsFromDir : Unimport -> string -> Unimport;
  (* ~/core/utils/paths *)
  normalizePath : string -> string;
  (* ~/core/utils/entrypoints *)
  getEntrypointBundlePath : Entrypoint.t -> string -> string -> string;
  isHtmlEntrypoint : Entrypoint.t -> bool;
  (* ~/core/utils/globals *)
  getGlobals : ResolvedConfig -> list Global.t;
  getEntrypointGlobals : string -> list Global.t;
  (* ~/core/utils/i18n *)
  parseI18nMessages : JS.json -> Completion (list Message.t);
  (* ~/core/utils/fs: the public assets found by the enumerator *)
  getPublicFiles : list string
}.

(** The ancestors of a directory, outermost first. *)
Fixpoint ancestors {C : Collaborators} (fuel : nat) (dir : string)
  : list string :=
  match fuel with
  | 0 => []
  | S fuel =>
      let parent := dirname dir in
      if String.eqb parent dir then [] else ancestors fuel parent ++ [parent]
  end.

(** [fs.ensureDir(dir)] of fs-extra: the directory is created with the
    ancestors it lacks. *)
Definition ensureDir {C : Collaborators} (dir : string) : Async unit :=
  mkdirs (ancestors (String.length dir) dir ++ [dir]).

(** Modelled from the spec: [writeFileIfDifferent] of [~/core/utils/fs], which
    is not part of the sources at hand.  The spec (4.2): it ensures that the
    parent directory of the location exists, reads the existing content if
    present, and writes only when the file is absent or its content differs
    byte for byte. *)
Definition writeFileIfDifferent {C : Collaborators} (file newContents : string)
  : Async unit :=
  ensureDir (dirname file) ;;
  fun fs =>
    match files fs !! file with
    | Some existing =>
        if String.eqb existing newContents then (Return tt, fs)
        else writeFile (dirname file) file newContents fs
    | None => writeFile (dirname file) file newContents fs
    end.

(** [fs.writeJson(file, object, { spaces: 2 })] of fs-extra: the serialized
    object and a final line feed, written unconditionally. *)
Definition writeJson {C : Collaborators} (file : string) (object : JS.json)
  : Async unit :=
  writeFile (dirname file) file (JS.stringify "" object +:+ JS.LF).

(** ** The generator *)

Section Generator.

Context {C : Collaborators}.
Variable wxt : Wxt.

Import JS.

(** *** [writeImportsDeclarationFile] *)

Definition importsDeclaration (unimport : Unimport) : string :=
  join LF ["// Generated by wxt"; generateTypeDeclarations unimport] +:+ LF.

(** The engine is mutated by the scan; the scanned engine is returned with
    the path, for the caller that goes on using the same object. *)
Definition writeImportsDeclarationFile (unimport : Unimport)
  : Async (string * Unimport) :=
  let filePath := resolve [typesDir (config wxt); "imports.d.ts"] in
  let unimport := scanImportsFromDir unimport (srcDir (config wxt)) in
  writeFileIfDifferent filePath (importsDeclaration unimport) ;;
  ret (filePath, unimport).

(** *** [writeImportsEslintFile] *)

Definition eslintNames (unimport : Unimport) : list string :=
  sort
    (List.filter truthy
       (map (fun i => nullish (Import_.as_ i) (Import_.name i))
          (getImports unimport))).

Definition eslintGlobals (unimport : Unimport)
  (options : WxtResolvedUnimportOptions) : object EslintGlobalsPropValue :=
  fold_left
    (fun globals name => set globals name (globalsPropValue (eslintrc options)))
    (eslintNames unimport) [].

Definition eslintrcJson (globals : object EslintGlobalsPropValue) : json :=
  JObj
    [("globals",
      JObj (map (fun kv => (fst kv, globalsPropValueJson (snd kv))) globals))].

Definition writeImportsEslintFile (unimport : Unimport)
  (options : WxtResolvedUnimportOptions) : Async unit :=
  writeJson (filePath (eslintrc options))
    (eslintrcJson (eslintGlobals unimport options)).

(** *** [writePathsDeclarationFile] *)

Definition pathsTemplate : string :=
  text
    [ "// Generated by wxt";
      "import " +:+ quoted "wxt/browser" +:+ ";";
      "";
      "declare module " +:+ quoted "wxt/browser" +:+ " {";
      "  export type PublicPath =";
      "{{ union }}";
      "  type HtmlPublicPath = Extract<PublicPath, "
        +:+ BQ +:+ "${string}.html" +:+ BQ +:+ ">";
      "  export interface WxtRuntime extends Runtime.Static {";
      "    getURL(path: PublicPath): string;";
      "    getURL(path: "
        +:+ BQ +:+ "${HtmlPublicPath}${string}" +:+ BQ +:+ "): string;";
      "  }";
      "}";
      "" ].

(** The paths of the bundle, before normalization. *)
Definition publicPaths (entrypoints : list Entrypoint.t) : list string :=
  map
    (fun entry =>
       getEntrypointBundlePath entry (outDir (config wxt))
         (if isHtmlEntrypoint entry then ".html" else ".js"))
    entrypoints
  ++ getPublicFiles.

Definition unionMember (path : string) : string :=
  "    | " +:+ quoted ("/" +:+ path).

Definition unionMembers (entrypoints : list Entrypoint.t) : list string :=
  sort (map unionMember (map normalizePath (publicPaths entrypoints))).

Definition unions (entrypoints : list Entrypoint.t) : string :=
  join LF (unionMembers entrypoints).

Definition pathsDeclaration (entrypoints : list Entrypoint.t) : string :=
  replace pathsTemplate "{{ union }}"
    (or_else (unions entrypoints) "    | never").

Definition writePathsDeclarationFile (entrypoints : list Entrypoint.t)
  : Async string :=
  let filePath := resolve [typesDir (config wxt); "paths.d.ts"] in
  writeFileIfDifferent filePath (pathsDeclaration entrypoints) ;;
  ret filePath.

(** *** [writeI18nDeclarationFile] *)

Definition i18nTemplate : string :=
  text
    [ "// Generated by wxt";
      "import " +:+ quoted "wxt/browser" +:+ ";";
      "";
      "declare module " +:+ quoted "wxt/browser" +:+ " {";
      "  /**";
      "   * See https://developer.chrome.com/docs/extensions/reference/i18n/#method-getMessage";
      "   */";
      "  interface GetMessageOptions {";
      "    /**";
      "     * See https://developer.chrome.com/docs/extensions/reference/i18n/#method-getMessage";
      "     */";
      "    escapeLt?: boolean";
      "  }";
      "";
      "  export interface WxtI18n extends I18n.Static {";
      "{{ overrides }}";
      "  }";
      "}";
      "" ].

(** [message.description || 'No message description.'] *)
Definition documentedDescription (message : Message.t) : string :=
  or_else (nullish (Message.description message) "")
    "No message description.".

Definition override (message : Message.t) : string :=
  text
    [ "    /**";
      "     * " +:+ documentedDescription message;
      "     *";
      "     * " +:+ quoted (Message.message message);
      "     */";
      "    getMessage(";
      "      messageName: " +:+ quoted (Message.name message) +:+ ",";
      "      substitutions?: string | string[],";
      "      options?: GetMessageOptions,";
      "    ): string;" ].

Definition overrides (messages : list Message.t) : list string :=
  map override messages.

Definition i18nDeclaration (messages : list Message.t) : string :=
  replace i18nTemplate "{{ overrides }}" (join LF (overrides messages)).

(** The [messages] of the default locale, or of the empty catalog. *)
Definition readMessages : Async (list Message.t) :=
  match default_locale (config wxt) with
  | Some (String c l as defaultLocale) =>
      let defaultLocalePath :=
        resolve
          [publicDir (config wxt); "_locales"; defaultLocale; "messages.json"]
      in
      data <- readFile defaultLocalePath ;;
      content <- lift (match JSON_parse data with
                       | Some content => Return content
                       | None => Throw SyntaxError
                       end) ;;
      lift (parseI18nMessages content)
  | _ => lift (parseI18nMessages (JObj []))
  end.

Definition writeI18nDeclarationFile : Async string :=
  let filePath := resolve [typesDir (config wxt); "i18n.d.ts"] in
  messages <- readMessages ;;
  writeFileIfDifferent filePath (i18nDeclaration messages) ;;
  ret filePath.

(** *** [writeGlobalsDeclarationFile] *)

Definition globals : list Global.t :=
  getGlobals (config wxt) ++ getEntrypointGlobals "".

Definition member (global : Global.t) : string :=
  "  readonly " +:+ Global.name global +:+ ": " +:+ Global.type global +:+ ";".

Definition globalsLines : list string :=
  [ "// Generated by wxt"; "export {}"; "interface ImportMetaEnv {" ]
  ++ map member globals
  ++ [ "}"; "interface ImportMeta {"; "  readonly env: ImportMetaEnv"; "}" ].

Definition globalsDeclaration : string := join LF globalsLines +:+ LF.

Definition writeGlobalsDeclarationFile : Async string :=
  let filePath := resolve [typesDir (config wxt); "globals.d.ts"] in
  writeFileIfDifferent filePath globalsDeclaration ;;
  ret filePath.

(** *** [writeMainDeclarationFile] *)

Definition fileReference (dir ref : string) : string :=
  "/// <reference types=" +:+ quoted ("./" +:+ normalizePath (relative dir ref))
  +:+ " />".

Definition moduleReference (module : WxtModule.t) : string :=
  "/// <reference types=" +:+ quoted (WxtModule.id module) +:+ " />".

(** [module.type === 'node_module' && module.configKey != null] *)
Definition needsReference (module : WxtModule.t) : bool :=
  match WxtModule.type module, WxtModule.configKey module with
  | WxtModule.node_module, Some _ => true
  | _, _ => false
  end.

Definition moduleReferences : list string :=
  map moduleReference (List.filter needsReference (modules (config wxt))).

Definition mainLines (references : list string) : list string :=
  let dir := wxtDir (config wxt) in
  [ "// Generated by wxt";
    "/// <reference types=" +:+ quoted "wxt/vite-builder-env" +:+ " />" ]
  ++ map (fileReference dir) references
  ++ moduleReferences.

Definition mainDeclaration (references : list string) : string :=
  join LF (mainLines references) +:+ LF.

Definition writeMainDeclarationFile (references : list string)
  : Async string :=
  let dir := wxtDir (config wxt) in
  let filePath := resolve [dir; "wxt.d.ts"] in
  writeFileIfDifferent filePath (mainDeclaration references) ;;
  ret filePath.

(** *** [writeTsConfigFile] *)

Definition getTsconfigPath (path : string) : string :=
  normalizePath (relative (wxtDir (config wxt)) path).

Definition aliasEntries (entry : string * string) : list string :=
  let (alias, absolutePath) := entry in
  let aliasPath := getTsconfigPath absolutePath in
  [ "      " +:+ quoted alias +:+ ": [" +:+ quoted aliasPath +:+ "]";
    "      " +:+ quoted (alias +:+ "/*") +:+ ": ["
      +:+ quoted (aliasPath +:+ "/*") +:+ "]" ].

Definition pathEntries : list string :=
  flat_map aliasEntries (alias (config wxt)).

Definition paths : string := join ("," +:+ LF) pathEntries.

Definition tsconfig (mainReference : string) : string :=
  text
    [ "{";
      "  " +:+ quoted "compilerOptions" +:+ ": {";
      "    " +:+ quoted "target" +:+ ": " +:+ quoted "ESNext" +:+ ",";
      "    " +:+ quoted "module" +:+ ": " +:+ quoted "ESNext" +:+ ",";
      "    " +:+ quoted "moduleResolution" +:+ ": " +:+ quoted "Bundler"
        +:+ ",";
      "    " +:+ quoted "noEmit" +:+ ": true,";
      "    " +:+ quoted "esModuleInterop" +:+ ": true,";
      "    " +:+ quoted "forceConsistentCasingInFileNames" +:+ ": true,";
      "    " +:+ quoted "resolveJsonModule" +:+ ": true,";
      "    " +:+ quoted "strict" +:+ ": true,";
      "    " +:+ quoted "skipLibCheck" +:+ ": true,";
      "    " +:+ quoted "paths" +:+ ": {";
      paths;
      "    }";
      "  },";
      "  " +:+ quoted "include" +:+ ": [";
      "    " +:+ quoted (getTsconfigPath (root (config wxt)) +:+ "/**/*")
        +:+ ",";
      "    " +:+ quoted ("./" +:+ getTsconfigPath mainReference);
      "  ],";
      "  " +:+ quoted "exclude" +:+ ": ["
        +:+ quoted (getTsconfigPath (outBaseDir (config wxt))) +:+ "]";
      "}" ].

Definition writeTsConfigFile (mainReference : string) : Async unit :=
  let dir := wxtDir (config wxt) in
  writeFileIfDifferent (resolve [dir; "tsconfig.json"])
    (tsconfig mainReference).

(** *** [generateTypesDir] *)

Definition generateTypesDir (entrypoints : list Entrypoint.t) : Async unit :=
  ensureDir (typesDir (config wxt)) ;;
  references <-
    match imports (config wxt) with
    | Some options =>
        let unimport := createUnimport options in
        written <- writeImportsDeclarationFile unimport ;;
        (if enabled (eslintrc options)
         then writeImportsEslintFile (snd written) options
         else ret tt) ;;
        ret [fst written]
    | None => ret []
    end ;;
  pathsReference <- writePathsDeclarationFile entrypoints ;;
  i18nReference <- writeI18nDeclarationFile ;;
  globalsReference <- writeGlobalsDeclarationFile ;;
  mainReference <-
    writeMainDeclarationFile
      (references ++ [pathsReference; i18nReference; globalsReference]) ;;
  writeTsConfigFile mainReference.

End Generator.

(** ** Reference collaborators

    One implementation of the collaborators, used by the examples: the POSIX
    flavour of Node's [path], a JSON reader, and the helpers of
    [~/core/utils] as the spec describes them. *)

Module Reference.

Import JS.

(** *** [node:path] (POSIX), with [/project] as working directory *)

Definition cwd : string := "/project".

Fixpoint splitOn (sep : ascii) (s : string) : list string :=
  match s with
  | EmptyString => [EmptyString]
  | String c r =>
      if Ascii.eqb c sep then EmptyString :: splitOn sep r
      else
        match splitOn sep r with
        | h :: t => String c h :: t
        | [] => [String c EmptyString]
        end
  end.

(** The segments of an absolute path, [.] and [..] resolved; [stack] holds
    the segments seen so far, innermost first. *)
Fixpoint normalizeSegments (stack segments : list string) : list string :=
  match segments with
  | [] => rev stack
  | seg :: rest =>
      if String.eqb seg "" then normalizeSegments stack rest
      else if String.eqb seg "." then normalizeSegments stack rest
      else if String.eqb seg ".." then normalizeSegments (tl stack) rest
      else normalizeSegments (seg :: stack) rest
  end.

Definition isAbsolute (p : string) : bool := String.prefix "/" p.

Definition resolvedSegments (parts : list string) : list string :=
  normalizeSegments []
    (splitOn "/"
       (fold_left
          (fun cur p =>
             if String.eqb p "" then cur
             else if isAbsolute p then p
             else cur +:+ "/" +:+ p)
          parts cwd)).

Definition resolve (parts : list string) : string :=
  "/" +:+ join "/" (resolvedSegments parts).

Fixpoint stripCommon (from to : list string) : list string * list string :=
  match from, to with
  | f :: from', t :: to' =>
      if String.eqb f t then stripCommon from' to' else (from, to)
  | _, _ => (from, to)
  end.

Definition relative (from to : string) : string :=
  let (up, down) := stripCommon (resolvedSegments [from]) (resolvedSegments [to]) in
  join "/" (map (fun _ => "..") up ++ down).

Fixpoint dropTrailingEmpty (segments : list string) : list string :=
  match segments with
  | [] => []
  | seg :: rest =>
      match dropTrailingEmpty rest with
      | [] => if String.eqb seg "" then [] else [seg]
      | rest' => seg :: rest'
      end
  end.

Definition dirname (p : string) : string :=
  let dir := join "/" (removelast (dropTrailingEmpty (splitOn "/" p))) in
  if String.eqb dir "" then (if isAbsolute p then "/" else ".") else dir.

(** *** [~/core/utils] *)

(** Modelled from the spec: [normalizePath] of [~/core/utils/paths], which
    returns the path with all separators converted to [/] (4.1). *)
Fixpoint normalizePath (p : string) : string :=
  match p with
  | EmptyString => EmptyString
  | String c r =>
      String (if Ascii.eqb c "\"%char then "/"%char else c) (normalizePath r)
  end.

(** Modelled from the spec: [getEntrypointBundlePath] of
    [~/core/utils/entrypoints], the function mapping an entrypoint, the
    output directory and an extension to the public output path of the
    entrypoint (6). *)
Definition getEntrypointBundlePath (entry : Entrypoint.t)
  (outDir ext : string) : string :=
  normalizePath
    (relative outDir
       (resolve [Entrypoint.outputDir entry; Entrypoint.name entry +:+ ext])).

(** Modelled from the spec: [isHtmlEntrypoint] of
    [~/core/utils/entrypoints], true of the markup-producing entrypoints. *)
Definition isHtmlEntrypoint (entry : Entrypoint.t) : bool :=
  match Entrypoint.kind entry with
  | Entrypoint.Markup => true
  | Entrypoint.Script => false
  end.

Definition jsonString (v : option json) : option (option string) :=
  match v with
  | None => Some None
  | Some (JStr s) => Some (Some s)
  | Some _ => None
  end.

(** Modelled from the spec: [parseI18nMessages] of [~/core/utils/i18n].  The
    catalog maps each message name to an object carrying at least a message
    string and optionally a description (4.3); a catalog of another structure
    is a parse error (7). *)
Fixpoint parseEntries (props : list (string * json))
  : Completion (list Message.t) :=
  match props with
  | [] => Return []
  | (name, JObj details) :: rest =>
      match get details "message", jsonString (get details "description") with
      | Some (JStr message), Some description =>
          match parseEntries rest with
          | Return messages =>
              Return
                ({| Message.name := name;
                    Message.message := message;
                    Message.description := description |} :: messages)
          | Throw e => Throw e
          end
      | _, _ => Throw (Failure "invalid message")
      end
  | _ :: _ => Throw (Failure "invalid message")
  end.

Definition parseI18nMessages (content : json) : Completion (list Message.t) :=
  match content with
  | JObj props => parseEntries props
  | _ => Throw (Failure "invalid catalog")
  end.

(** *** [JSON.parse]

    A reader of the JSON grammar (ECMA-404).  Numbers are kept as their
    literal.  A [\u] escape above the 7-bit range is stored as the UTF-8
    bytes of its character; the two escapes of a surrogate pair are one
    character, and a surrogate without its partner is stored as U+FFFD, the
    bytes a file written in UTF-8 holds for it.  A repeated key overwrites
    the earlier property. *)

Definition isWhitespace (c : ascii) : bool :=
  let n := N_of_ascii c in
  ((n =? 32) || (n =? 9) || (n =? 10) || (n =? 13))%N.

Fixpoint skipWhitespace (s : string) : string :=
  match s with
  | String c r => if isWhitespace c then skipWhitespace r else s
  | EmptyString => s
  end.

Definition hexValue (c : ascii) : option N :=
  let n := N_of_ascii c in
  if ((48 <=? n) && (n <=? 57))%N then Some (n - 48)%N
  else if ((97 <=? n) && (n <=? 102))%N then Some (n - 87)%N
  else if ((65 <=? n) && (n <=? 70))%N then Some (n - 55)%N
  else None.

Definition utf8 (u : N) : string :=
  if (u <? 128)%N then String (ascii_of_N u) ""
  else if (u <? 2048)%N then
    String (ascii_of_N (192 + u / 64))
      (String (ascii_of_N (128 + u mod 64)) "")
  else if (u <? 65536)%N then
    String (ascii_of_N (224 + u / 4096))
      (String (ascii_of_N (128 + (u / 64) mod 64))
         (String (ascii_of_N (128 + u mod 64)) ""))
  else
    String (ascii_of_N (240 + u / 262144))
      (String (ascii_of_N (128 + (u / 4096) mod 64))
         (String (ascii_of_N (128 + (u / 64) mod 64))
            (String (ascii_of_N (128 + u mod 64)) ""))).

(** The code unit written with four hexadecimal digits. *)
Definition codeUnit (h1 h2 h3 h4 : ascii) : option N :=
  match hexValue h1, hexValue h2, hexValue h3, hexValue h4 with
  | Some a, Some b, Some c, Some d => Some (((a * 16 + b) * 16 + c) * 16 + d)%N
  | _, _, _, _ => None
  end.

Definition isHighSurrogate (u : N) : bool := ((55296 <=? u) && (u <? 56320))%N.
Definition isLowSurrogate (u : N) : bool := ((56320 <=? u) && (u <? 57344))%N.

(** The characters of a string literal after its opening quote, and the
    text after its closing quote. *)
Fixpoint readString (s : string) : option (string * string) :=
  match s with
  | EmptyString => None
  | String c r =>
      if Ascii.eqb c "034" then Some (EmptyString, r)
      else if (N_of_ascii c <? 32)%N then None
      else if Ascii.eqb c "\" then
        match r with
        | String e r' =>
            let simple (u : string) :=
              match readString r' with
              | Some (t, rest) => Some (u +:+ t, rest)
              | None => None
              end in
            if Ascii.eqb e "034" then simple DQ
            else if Ascii.eqb e "\" then simple "\"
            else if Ascii.eqb e "/" then simple "/"
            else if Ascii.eqb e "b" then simple (String "008" "")
            else if Ascii.eqb e "f" then simple (String "012" "")
            else if Ascii.eqb e "n" then simple LF
            else if Ascii.eqb e "r" then simple (String "013" "")
            else if Ascii.eqb e "t" then simple (String "009" "")
            else if Ascii.eqb e "u" then
              match r' with
              | String h1 (String h2 (String h3 (String h4 r''))) =>
                  let single (u : N) :=
                    match readString r'' with
                    | Some (t, rest) => Some (utf8 u +:+ t, rest)
                    | None => None
                    end in
                  match codeUnit h1 h2 h3 h4 with
                  | Some u =>
                      if isHighSurrogate u then
                        match r'' with
                        | String b1 (String b2 (String l1 (String l2
                            (String l3 (String l4 r3))))) =>
                            match
                              (if (Ascii.eqb b1 "\" && Ascii.eqb b2 "u")%bool
                               then codeUnit l1 l2 l3 l4 else None)
                            with
                            | Some v =>
                                if isLowSurrogate v then
                                  match readString r3 with
                                  | Some (t, rest) =>
                                      Some (utf8 (65536 + (u - 55296) * 1024
                                                  + (v - 56320))%N +:+ t,
                                            rest)
                                  | None => None
                                  end
                                else single 65533%N
                            | None => single 65533%N
                            end
                        | _ => single 65533%N
                        end
                      else if isLowSurrogate u then single 65533%N
                      else single u
                  | None => None
                  end
              | _ => None
              end
            else None
        | EmptyString => None
        end
      else
        match readString r with
        | Some (t, rest) => Some (String c t, rest)
        | None => None
        end
  end.

Fixpoint readDigits (s : string) : string * string :=
  match s with
  | String c r =>
      if isDigit c then let (d, rest) := readDigits r in (String c d, rest)
      else (EmptyString, s)
  | EmptyString => (EmptyString, s)
  end.

(** [-? int frac? exp?] *)
Definition readNumber (s : string) : option (string * string) :=
  let (sign, s1) :=
    match s with
    | String "-" r => ("-", r)
    | _ => (EmptyString, s)
    end in
  let (int, s2) := readDigits s1 in
  if (String.eqb int "" || (String.prefix "0" int && negb (String.eqb int "0")))%bool
  then None
  else
    let frac :=
      match s2 with
      | String "." r =>
          let (d, rest) := readDigits r in
          if String.eqb d "" then None else Some ("." +:+ d, rest)
      | _ => Some (EmptyString, s2)
      end in
    match frac with
    | None => None
    | Some (f, s3) =>
        let exp :=
          match s3 with
          | String e r =>
              if (Ascii.eqb e "e" || Ascii.eqb e "E")%bool then
                let (esign, r1) :=
                  match r with
                  | String "+" r' => ("+", r')
                  | String "-" r' => ("-", r')
                  | _ => (EmptyString, r)
                  end in
                let (d, rest) := readDigits r1 in
                if String.eqb d "" then None
                else Some (String e esign +:+ d, rest)
              else Some (EmptyString, s3)
          | EmptyString => Some (EmptyString, s3)
          end in
        match exp with
        | None => None
        | Some (x, s4) => Some (sign +:+ int +:+ f +:+ x, s4)
        end
    end.

Definition afterPrefix (p s : string) : option string :=
  if String.prefix p s then Some (drop (String.length p) s) else None.

Fixpoint readValue (fuel : nat) (s : string) : option (json * string) :=
  match fuel with
  | 0 => None
  | S fuel =>
      match skipWhitespace s with
      | String "{" r =>
          match skipWhitespace r with
          | String "}" rest => Some (JObj [], rest)
          | r' => readMembers fuel r' []
          end
      | String "[" r =>
          match skipWhitespace r with
          | String "]" rest => Some (JArr [], rest)
          | r' => readElements fuel r' []
          end
      | String "034" r =>
          match readString r with
          | Some (t, rest) => Some (JStr t, rest)
          | None => None
          end
      | s' =>
          match afterPrefix "true" s', afterPrefix "false" s',
                afterPrefix "null" s' with
          | Some rest, _, _ => Some (JBool true, rest)
          | _, Some rest, _ => Some (JBool false, rest)
          | _, _, Some rest => Some (JNull, rest)
          | _, _, _ =>
              match readNumber s' with
              | Some (literal, rest) => Some (JNum literal, rest)
              | None => None
              end
          end
      end
  end
with readMembers (fuel : nat) (s : string) (acc : object json)
  : option (json * string) :=
  match fuel with
  | 0 => None
  | S fuel =>
      match skipWhitespace s with
      | String "034" r =>
          match readString r with
          | Some (key, r1) =>
              match skipWhitespace r1 with
              | String ":" r2 =>
                  match readValue fuel r2 with
                  | Some (v, r3) =>
                      match skipWhitespace r3 with
                      | String "," r4 => readMembers fuel r4 (define acc key v)
                      | String "}" rest => Some (JObj (define acc key v), rest)
                      | _ => None
                      end
                  | None => None
                  end
              | _ => None
              end
          | None => None
          end
      | _ => None
      end
  end
with readElements (fuel : nat) (s : string) (acc : list json)
  : option (json * string) :=
  match fuel with
  | 0 => None
  | S fuel =>
      match readValue fuel s with
      | Some (v, r) =>
          match skipWhitespace r with
          | String "," r' => readElements fuel r' (acc ++ [v])
          | String "]" rest => Some (JArr (acc ++ [v]), rest)
          | _ => None
          end
      | None => None
      end
  end.

Definition JSON_parse (data : string) : option json :=
  match readValue (2 * String.length data + 2) data with
  | Some (v, rest) =>
      if String.eqb (skipWhitespace rest) "" then Some v else None
  | None => None
  end.

(** The reference collaborators, for the facts supplied by the build: the
    engine as created and as scanned, the globals and the public assets. *)
Definition collaborators (created scanned : Unimport)
  (buildGlobals : list Global.t) (entrypointGlobals : string -> list Global.t)
  (publicFiles : list string) : Collaborators :=
  Build_Collaborators
    resolve relative dirname JSON_parse
    (fun _ => created) (fun _ _ => scanned)
    normalizePath getEntrypointBundlePath isHtmlEntrypoint
    (fun _ => buildGlobals) entrypointGlobals
    parseI18nMessages publicFiles.

End Reference.

(** ** Vocabulary of the statements *)

Module Spec.

Import JS.

(** No [$] occurs in the text, so it holds no substitution pattern. *)
Fixpoint dollarFree (s : string) : bool :=
  match s with
  | EmptyString => true
  | String c r => (negb (Ascii.eqb c "$") && dollarFree r)%bool
  end.

(** The two parts of a template, around its placeholder. *)
Definition pathsHead : string :=
  text
    [ "// Generated by wxt";
      "import " +:+ quoted "wxt/browser" +:+ ";";
      "";
      "declare module " +:+ quoted "wxt/browser" +:+ " {";
      "  export type PublicPath =";
      "" ].

Definition pathsTail : string :=
  text
    [ "";
      "  type HtmlPublicPath = Extract<PublicPath, "
        +:+ BQ +:+ "${string}.html" +:+ BQ +:+ ">";
      "  export interface WxtRuntime extends Runtime.Static {";
      "    getURL(path: PublicPath): string;";
      "    getURL(path: "
        +:+ BQ +:+ "${HtmlPublicPath}${string}" +:+ BQ +:+ "): string;";
      "  }";
      "}";
      "" ].

(** The paths declaration file of a build without public paths. *)
Definition neverDeclaration : string :=
  text
    [ "// Generated by wxt";
      "import " +:+ quoted "wxt/browser" +:+ ";";
      "";
      "declare module " +:+ quoted "wxt/browser" +:+ " {";
      "  export type PublicPath =";
      "    | never";
      "  type HtmlPublicPath = Extract<PublicPath, "
        +:+ BQ +:+ "${string}.html" +:+ BQ +:+ ">";
      "  export interface WxtRuntime extends Runtime.Static {";
      "    getURL(path: PublicPath): string;";
      "    getURL(path: "
        +:+ BQ +:+ "${HtmlPublicPath}${string}" +:+ BQ +:+ "): string;";
      "  }";
      "}";
      "" ].

Definition i18nHead : string :=
  text
    [ "// Generated by wxt";
      "import " +:+ quoted "wxt/browser" +:+ ";";
      "";
      "declare module " +:+ quoted "wxt/browser" +:+ " {";
      "  /**";
      "   * See https://developer.chrome.com/docs/extensions/reference/i18n/#method-getMessage";
      "   */";
      "  interface GetMessageOptions {";
      "    /**";
      "     * See https://developer.chrome.com/docs/extensions/reference/i18n/#method-getMessage";
      "     */";
      "    escapeLt?: boolean";
      "  }";
      "";
      "  export interface WxtI18n extends I18n.Static {";
      "" ].

Definition i18nTail : string := text [ ""; "  }"; "}"; "" ].

(** The opening of the documentation comment of an overload whose message
    has no description. *)
Definition fallbackComment : string :=
  text [ "    /**"; "     * No message description."; "     *"; "" ].

(** The overload of a message without description. *)
Definition undocumentedOverride (message : Message.t) : string :=
  text
    [ "    /**";
      "     * No message description.";
      "     *";
      "     * " +:+ quoted (Message.message message);
      "     */";
      "    getMessage(";
      "      messageName: " +:+ quoted (Message.name message) +:+ ",";
      "      substitutions?: string | string[],";
      "      options?: GetMessageOptions,";
      "    ): string;" ].

(** The reference directive for the types of a package. *)
Definition augmentationReference (id : string) : string :=
  "/// <reference types=" +:+ quoted id +:+ " />".

(** The directives the root declaration file owes to the installed modules:
    one for each module installed from a package that declares a
    configuration key, in the order of the modules, and none for the
    others. *)
Inductive AugmentationReferences : list WxtModule.t -> list string -> Prop :=
| references_done : AugmentationReferences [] []
| references_package (module : WxtModule.t) (key : string) modules lines :
    WxtModule.type module = WxtModule.node_module ->
    WxtModule.configKey module = Some key ->
    AugmentationReferences modules lines ->
    AugmentationReferences (module :: modules)
      (augmentationReference (WxtModule.id module) :: lines)
| references_local (module : WxtModule.t) modules lines :
    WxtModule.type module = WxtModule.local ->
    AugmentationReferences modules lines ->
    AugmentationReferences (module :: modules) lines
| references_keyless (module : WxtModule.t) modules lines :
    WxtModule.configKey module = None ->
    AugmentationReferences modules lines ->
    AugmentationReferences (module :: modules) lines.

(** An entry of the [paths] map of the project descriptor. *)
Definition pathMapping (key target : string) : string :=
  "      " +:+ quoted key +:+ ": [" +:+ quoted target +:+ "]".

(** The type a name has among the members of an interface, as the
    specification words the merging rule of the target type system: a later
    member of the same name shadows the earlier ones. *)
Fixpoint effectiveType (name : string) (members : list Global.t)
  : option string :=
  match members with
  | [] => None
  | global :: later =>
      match effectiveType name later with
      | Some type => Some type
      | None =>
          if String.eqb (Global.name global) name
          then Some (Global.type global)
          else None
      end
  end.

(** Run on the store [fs], the writer returns [value] and leaves [file] with
    [text], every other file as it was. *)
Definition emits {A} (writer : Async A) (fs : FileSystem) (value : A)
  (file text : string) : Prop :=
  exists fs',
    writer fs = (Return value, fs')
    /\ files fs' !! file = Some text
    /\ forall other, other <> file -> files fs' !! other = files fs !! other.

(** The path an event of the journal is about. *)
Definition target (e : Event) : string :=
  match e with
  | Mkdir dir => dir
  | Write file _ => file
  end.

(** A file holds the data it is to hold, below directories that exist:
    writing it again changes nothing. *)
Definition settled {C : Collaborators} (fs : FileSystem)
  (task : string * string) : Prop :=
  Forall (fun dir => dir ∈ dirs fs)
    (ancestors (String.length (dirname (fst task))) (dirname (fst task))
     ++ [dirname (fst task)])
  /\ files fs !! fst task = Some (snd task).

(** A series of [writeFileIfDifferent]. *)
Fixpoint writeAll {C : Collaborators} (tasks : list (string * string))
  : Async unit :=
  match tasks with
  | [] => ret tt
  | (file, data) :: rest => writeFileIfDifferent file data ;; writeAll rest
  end.

(** The pipeline writes no lint-globals file. *)
Definition lintFree (wxt : Wxt) : Prop :=
  match imports (config wxt) with
  | Some options => enabled (eslintrc options) = false
  | None => True
  end.

(** The references the root declaration file is given. *)
Definition references {C : Collaborators} (wxt : Wxt) : list string :=
  match imports (config wxt) with
  | Some _ => [resolve [typesDir (config wxt); "imports.d.ts"]]
  | None => []
  end
  ++ [ resolve [typesDir (config wxt); "paths.d.ts"];
       resolve [typesDir (config wxt); "i18n.d.ts"];
       resolve [typesDir (config wxt); "globals.d.ts"] ].

(** The files written before the catalog is read, with their contents. *)
Definition writtenFirst {C : Collaborators} (wxt : Wxt)
  (entrypoints : list Entrypoint.t) : list (string * string) :=
  match imports (config wxt) with
  | Some options =>
      [ (resolve [typesDir (config wxt); "imports.d.ts"],
         importsDeclaration
           (scanImportsFromDir (createUnimport options)
              (srcDir (config wxt)))) ]
  | None => []
  end
  ++ [ (resolve [typesDir (config wxt); "paths.d.ts"],
        pathsDeclaration wxt entrypoints) ].

(** The files written once the messages are known. *)
Definition writtenLast {C : Collaborators} (wxt : Wxt)
  (messages : list Message.t) : list (string * string) :=
  [ (resolve [typesDir (config wxt); "i18n.d.ts"], i18nDeclaration messages);
    (resolve [typesDir (config wxt); "globals.d.ts"], globalsDeclaration wxt);
    (resolve [wxtDir (config wxt); "wxt.d.ts"],
     mainDeclaration wxt (references wxt));
    (resolve [wxtDir (config wxt); "tsconfig.json"],
     tsconfig wxt (resolve [wxtDir (config wxt); "wxt.d.ts"])) ].

(** The declaration files and the project descriptor. *)
Definition outputs {C : Collaborators} (wxt : Wxt) : list string :=
  map fst (writtenFirst wxt []) ++ map fst (writtenLast wxt []).

(** The catalog the generator reads, if it reads one. *)
Definition catalogFile {C : Collaborators} (wxt : Wxt) : option string :=
  match default_locale (config wxt) with
  | Some (String c l as locale) =>
      Some (resolve [publicDir (config wxt); "_locales"; locale;
                     "messages.json"])
  | _ => None
  end.

(** The name under which an import is bound: [i.as ?? i.name]. *)
Definition boundName (i : Import_.t) : string :=
  nullish (Import_.as_ i) (Import_.name i).

End Spec.

(** ** Example builds *)

Module Example.

Definition project : ResolvedConfig :=
  {| root := "/project";
     srcDir := "/project";
     publicDir := "/project/public";
     wxtDir := "/project/.wxt";
     typesDir := "/project/.wxt/types";
     outBaseDir := "/project/.output";
     outDir := "/project/.output/chrome-mv3";
     imports := None;
     default_locale := None;
     modules := [];
     alias := [] |}.

Definition engine : Unimport :=
  {| getImports := []; generateTypeDeclarations := "export {}" |}.

Definition popup : Entrypoint.t :=
  {| Entrypoint.name := "popup";
     Entrypoint.outputDir := "/project/.output/chrome-mv3";
     Entrypoint.kind := Entrypoint.Markup |}.

Definition background : Entrypoint.t :=
  {| Entrypoint.name := "background";
     Entrypoint.outputDir := "/project/.output/chrome-mv3";
     Entrypoint.kind := Entrypoint.Script |}.

(** A build with the given public assets and no globals. *)
Definition withAssets (publicFiles : list string) : Collaborators :=
  Reference.collaborators engine engine [] (fun _ => []) publicFiles.

Definition wxt : Wxt := {| config := project |}.

(** The same project with a default locale. *)
Definition localized : Wxt :=
  {| config :=
       {| root := "/project";
          srcDir := "/project";
          publicDir := "/project/public";
          wxtDir := "/project/.wxt";
          typesDir := "/project/.wxt/types";
          outBaseDir := "/project/.output";
          outDir := "/project/.output/chrome-mv3";
          imports := None;
          default_locale := Some "en";
          modules := [];
          alias := [] |} |}.

Definition catalogPath : string := "/project/public/_locales/en/messages.json".

(** The store of a project that was never built and holds the catalog of
    the default locale. *)
Definition withCatalog (data : string) : FileSystem :=
  {| files := {[ catalogPath := data ]};
     dirs :=
       {[ "/"; "/project"; "/project/public"; "/project/public/_locales";
          "/project/public/_locales/en" ]};
     journal := [] |}.

(** [{"greet": {"message": "Hi {{name}}", "description": "greeting"}}] *)
Definition greetCatalog : string :=
  "{" +:+ JS.quoted "greet" +:+ ": {" +:+ JS.quoted "message" +:+ ": "
  +:+ JS.quoted "Hi {{name}}" +:+ ", " +:+ JS.quoted "description" +:+ ": "
  +:+ JS.quoted "greeting" +:+ "}}".

Definition greet : Message.t :=
  {| Message.name := "greet";
     Message.message := "Hi {{name}}";
     Message.description := Some "greeting" |}.

(** [{"price": {"message": "Price: $$5", "description": "cost"}}]: in the
    message format of the browsers, [$$] stands for a dollar sign. *)
Definition priceCatalog : string :=
  "{" +:+ JS.quoted "price" +:+ ": {" +:+ JS.quoted "message" +:+ ": "
  +:+ JS.quoted "Price: $$5" +:+ ", " +:+ JS.quoted "description" +:+ ": "
  +:+ JS.quoted "cost" +:+ "}}".

Definition price (message : string) : Message.t :=
  {| Message.name := "price";
     Message.message := message;
     Message.description := Some "cost" |}.

(** The modules of the spec: [a] from a package with a key, [b] from a
    package without key, [c] local with a key. *)
Definition withModules : Wxt :=
  {| config :=
       {| root := "/project";
          srcDir := "/project";
          publicDir := "/project/public";
          wxtDir := "/project/.wxt";
          typesDir := "/project/.wxt/types";
          outBaseDir := "/project/.output";
          outDir := "/project/.output/chrome-mv3";
          imports := None;
          default_locale := None;
          modules :=
            [ {| WxtModule.type := WxtModule.node_module;
                 WxtModule.id := "a";
                 WxtModule.configKey := Some "a" |};
              {| WxtModule.type := WxtModule.node_module;
                 WxtModule.id := "b";
                 WxtModule.configKey := None |};
              {| WxtModule.type := WxtModule.local;
                 WxtModule.id := "c";
                 WxtModule.configKey := Some "c" |} ];
          alias := [] |} |}.

(** A project whose descriptor is written to [wxtDir], with the alias [@]
    for [/project/src]. *)
Definition withAlias (wxtDir : string) : Wxt :=
  {| config :=
       {| root := "/project";
          srcDir := "/project/src";
          publicDir := "/project/public";
          wxtDir := wxtDir;
          typesDir := "/project/.wxt/types";
          outBaseDir := "/project/.output";
          outDir := "/project/.output/chrome-mv3";
          imports := None;
          default_locale := None;
          modules := [];
          alias := [("@", "/project/src")] |} |}.

(** A build in which both sources of globals define [X]. *)
Definition shadowing : Collaborators :=
  Reference.collaborators engine engine
    [ {| Global.name := "X"; Global.type := "string" |} ]
    (fun _ => [ {| Global.name := "X"; Global.type := "number" |} ])
    [].

(** An engine that has found the given imports. *)
Definition found (bindings : list Import_.t) : Unimport :=
  {| getImports := bindings; generateTypeDeclarations := "export {}" |}.

Definition lintOptions : WxtResolvedUnimportOptions :=
  {| eslintrc :=
       {| enabled := true;
          filePath := "/project/.wxt/eslintrc-auto-import.json";
          globalsPropValue := GlobalsBoolean true |} |}.

Definition useStore : Import_.t :=
  {| Import_.name := "useStore"; Import_.as_ := None |}.

Definition defineConfig : Import_.t :=
  {| Import_.name := "default"; Import_.as_ := Some "defineConfig" |}.

(** An import whose alias is the empty string. *)
Definition unnamed : Import_.t :=
  {| Import_.name := "foo"; Import_.as_ := Some "" |}.

(** The project with auto-imports and the lint-globals file enabled. *)
Definition linted : Wxt :=
  {| config :=
       {| root := "/project";
          srcDir := "/project";
          publicDir := "/project/public";
          wxtDir := "/project/.wxt";
          typesDir := "/project/.wxt/types";
          outBaseDir := "/project/.output";
          outDir := "/project/.output/chrome-mv3";
          imports := Some lintOptions;
          default_locale := None;
          modules := [];
          alias := [("@", "/project/src")] |} |}.

(** A build whose engine finds two imports when it scans the sources. *)
Definition linting : Collaborators :=
  Reference.collaborators engine (found [useStore; defineConfig])
    [] (fun _ => []) ["icon.png"].

(** The store of a project that was never built. *)
Definition fresh : FileSystem :=
  {| files := ∅; dirs := {[ "/"; "/project" ]}; journal := [] |}.

End Example.

(** ** The pipeline as a plan of writes

    [generateTypesDir] interleaves three kinds of operations: writes through
    [writeFileIfDifferent], the one write through [fs.writeJson], and the
    reading of the catalog.  A plan lists the writes with their data. *)

Module Plan.

Inductive Step : Type :=
| IfDifferent (file data : string)
| Overwrite (file data : string).

Definition file (step : Step) : string :=
  match step with
  | IfDifferent file _ => file
  | Overwrite file _ => file
  end.

Definition data (step : Step) : string :=
  match step with
  | IfDifferent _ data => data
  | Overwrite _ data => data
  end.

Definition run {C : Collaborators} (step : Step) : Async unit :=
  match step with
  | IfDifferent file data => writeFileIfDifferent file data
  | Overwrite file data => writeFile (dirname file) file data
  end.

Fixpoint runAll {C : Collaborators} (steps : list Step) : Async unit :=
  match steps with
  | [] => ret tt
  | step :: rest => run step ;; runAll rest
  end.

(** The text [fs.writeJson] writes for the lint-globals file. *)
Definition eslintrcText (unimport : Unimport)
  (options : WxtResolvedUnimportOptions) : string :=
  JS.stringify "" (eslintrcJson (eslintGlobals unimport options)) +:+ JS.LF.

(** The writes of [generateTypesDir] before it reads the catalog. *)
Definition first {C : Collaborators} (wxt : Wxt)
  (entrypoints : list Entrypoint.t) : list Step :=
  match imports (config wxt) with
  | Some options =>
      let unimport :=
        scanImportsFromDir (createUnimport options) (srcDir (config wxt)) in
      IfDifferent (resolve [typesDir (config wxt); "imports.d.ts"])
        (importsDeclaration unimport)
      :: (if enabled (eslintrc options)
          then [Overwrite (filePath (eslintrc options))
                  (eslintrcText unimport options)]
          else [])
  | None => []
  end
  ++ [ IfDifferent (resolve [typesDir (config wxt); "paths.d.ts"])
         (pathsDeclaration wxt entrypoints) ].

(** The writes of [generateTypesDir] once the messages are known. *)
Definition last {C : Collaborators} (wxt : Wxt) (messages : list Message.t)
  : list Step :=
  [ IfDifferent (resolve [typesDir (config wxt); "i18n.d.ts"])
      (i18nDeclaration messages);
    IfDifferent (resolve [typesDir (config wxt); "globals.d.ts"])
      (globalsDeclaration wxt);
    IfDifferent (resolve [wxtDir (config wxt); "wxt.d.ts"])
      (mainDeclaration wxt (Spec.references wxt));
    IfDifferent (resolve [wxtDir (config wxt); "tsconfig.json"])
      (tsconfig wxt (resolve [wxtDir (config wxt); "wxt.d.ts"])) ].

(** The files written before the catalog is read, those written after, and
    all of them. *)
Definition firstTargets {C : Collaborators} (wxt : Wxt) : list string :=
  match imports (config wxt) with
  | Some options =>
      resolve [typesDir (config wxt); "imports.d.ts"]
      :: (if enabled (eslintrc options)
          then [filePath (eslintrc options)]
          else [])
  | None => []
  end
  ++ [ resolve [typesDir (config wxt); "paths.d.ts"] ].

Definition lastTargets {C : Collaborators} (wxt : Wxt) : list string :=
  [ resolve [typesDir (config wxt); "i18n.d.ts"];
    resolve [typesDir (config wxt); "globals.d.ts"];
    resolve [wxtDir (config wxt); "wxt.d.ts"];
    resolve [wxtDir (config wxt); "tsconfig.json"] ].

Definition targets {C : Collaborators} (wxt : Wxt) : list string :=
  firstTargets wxt ++ lastTargets wxt.

(** Between two stores, files are changed at most at some paths, none is
    removed, and no directory is removed. *)
Definition keeps (paths : list string) (fs fs' : FileSystem) : Prop :=
  (forall path, ~ In path paths -> files fs' !! path = files fs !! path)
  /\ (forall path, is_Some (files fs !! path) -> is_Some (files fs' !! path))
  /\ dirs fs ⊆ dirs fs'.

End Plan.

(** ** Vocabulary of the statements on texts and names *)

Module Text.

(** The text holds none of the patterns [$$], [$&], [$`] and [$'] of
    [String.prototype.replace]; other uses of [$], as in [$1] and [$NAME$],
    are allowed. *)
Fixpoint patternFree (s : string) : bool :=
  match s with
  | EmptyString => true
  | String c r =>
      match r with
      | String d _ =>
          if (Ascii.eqb c "$"
              && (Ascii.eqb d "$" || Ascii.eqb d "&" || Ascii.eqb d "096"
                  || Ascii.eqb d "'"))%bool
          then false
          else patternFree r
      | EmptyString => true
      end
  end.

(** A sorted list without its repetitions. *)
Fixpoint distinct (l : list string) : list string :=
  match l with
  | [] => []
  | x :: t =>
      match t with
      | y :: _ => if String.eqb x y then distinct t else x :: distinct t
      | [] => [x]
      end
  end.

End Text.

(** ** Facts about the primitives *)

Lemma leb_transitive :
  Transitive (fun a b : string => is_true (String.leb a b)).
Proof.
  intros a b c Hab Hbc. unfold is_true in *.
  apply Is_true_true. apply Is_true_true in Hab, Hbc.
  exact (transitivity (R := String.le) Hab Hbc).
Qed.

Lemma sort_sorted (l : list string) : StronglySorted JS.le (JS.sort l).
Proof. apply JS.StringSort.StronglySorted_sort, leb_transitive. Qed.

Lemma sort_permutation (l : list string) : Permutation l (JS.sort l).
Proof. apply JS.StringSort.Permuted_sort. Qed.

Lemma sort_length (l : list string) : length (JS.sort l) = length l.
Proof. symmetry. apply Permutation_length, sort_permutation. Qed.

(** The sorted array does not depend on the sorting algorithm. *)
Lemma sorted_permutation_unique (l l' : list string) :
  StronglySorted JS.le l -> StronglySorted JS.le l' -> Permutation l l' ->
  l = l'.
Proof.
  revert l'. induction l as [|a l IH]; intros l' Hl Hl' Hp.
  - apply Permutation_nil in Hp. now subst.
  - destruct l' as [|b l'].
    + symmetry in Hp. apply Permutation_nil in Hp. discriminate.
    + apply StronglySorted_inv in Hl as [Hl Ha].
      apply StronglySorted_inv in Hl' as [Hl' Hb].
      assert (a = b) as <-.
      { assert (In a (b :: l')) as [->|Ha']
          by (apply (Permutation_in _ Hp); now left); [reflexivity|].
        assert (In b (a :: l)) as [->|Hb']
          by (apply (Permutation_in _ (Permutation_sym Hp)); now left);
          [reflexivity|].
        rewrite List.Forall_forall in Ha, Hb.
        apply String.leb_antisym; [apply Ha, Hb'|apply Hb, Ha']. }
      f_equal. apply IH; auto. now apply Permutation_cons_inv in Hp.
Qed.

Lemma append_cons (x : ascii) (a b : string) :
  String x a +:+ b = String x (a +:+ b).
Proof. reflexivity. Qed.

Lemma append_assoc (a b c : string) : (a +:+ b) +:+ c = a +:+ b +:+ c.
Proof.
  induction a as [|x a IH]; [reflexivity|].
  rewrite !append_cons. now rewrite IH.
Qed.

Lemma append_nil_r (a : string) : a +:+ "" = a.
Proof.
  induction a as [|x a IH]; [reflexivity|].
  rewrite append_cons. now rewrite IH.
Qed.

(** A replacement text without [$] is inserted as it is. *)
Lemma getSubstitution_plain (matched before after replacement : string) :
  Spec.dollarFree replacement = true ->
  JS.getSubstitution matched before after replacement = replacement.
Proof.
  induction replacement as [|c r IH]; [reflexivity|].
  cbn [Spec.dollarFree]. intros [Hc Hr]%andb_prop.
  apply negb_true_iff in Hc. cbn [JS.getSubstitution]. rewrite Hc.
  now rewrite IH.
Qed.

Section PipelineFacts.

Context {C : Collaborators}.

Lemma NoDup_app_inv {A} (l1 l2 : list A) :
  List.NoDup (l1 ++ l2) ->
  List.NoDup l1 /\ (forall a, In a l1 -> ~ In a l2) /\ List.NoDup l2.
Proof.
  intros H. split; [now apply NoDup_app_remove_r in H|].
  split; [|now apply NoDup_app_remove_l in H].
  induction l1 as [|x l1 IH]; [intros a []|].
  cbn [app] in H. apply List.NoDup_cons_iff in H as [Hx H].
  intros a [<-|Ha] Hin; [|exact (IH H a Ha Hin)].
  apply Hx, in_app_iff. now right.
Qed.

Lemma mkdirs_present (lineage : list string) (fs : FileSystem) :
  Forall (fun dir => dir ∈ dirs fs) lineage ->
  mkdirs lineage fs = (Return tt, fs).
Proof.
  intros H. unfold mkdirs.
  replace (List.filter (fun dir => bool_decide (dir ∉ dirs fs)) lineage)
    with (@nil string); [reflexivity|].
  induction H as [|d l Hd _ IH]; [reflexivity|].
  cbn [List.filter]. rewrite bool_decide_eq_false_2 by (intros n; now apply n).
  exact IH.
Qed.

Lemma mkdirs_spec (lineage : list string) (fs : FileSystem) :
  exists fs',
    mkdirs lineage fs = (Return tt, fs')
    /\ files fs' = files fs
    /\ dirs fs ⊆ dirs fs'
    /\ Forall (fun dir => dir ∈ dirs fs') lineage.
Proof.
  unfold mkdirs.
  destruct (List.filter (fun dir => bool_decide (dir ∉ dirs fs)) lineage)
    as [|m ms] eqn:E.
  - exists fs. repeat split; [set_solver|].
    apply List.Forall_forall. intros d Hd.
    destruct (decide (d ∈ dirs fs)) as [i|n]; [exact i|].
    assert (In d []) as [].
    rewrite <- E. apply filter_In. split; [exact Hd|].
    now apply bool_decide_eq_true_2.
  - eexists. split; [reflexivity|]. cbn [files dirs].
    repeat split; [set_solver|].
    apply List.Forall_forall. intros d Hd.
    destruct (decide (d ∈ dirs fs)) as [i|n]; [set_solver|].
    apply elem_of_union_l, elem_of_list_to_set, list_elem_of_In.
    rewrite <- E. apply filter_In. split; [exact Hd|].
    now apply bool_decide_eq_true_2.
Qed.

Lemma writeFileIfDifferent_settled (fs : FileSystem) (file data : string) :
  Spec.settled fs (file, data) ->
  writeFileIfDifferent file data fs = (Return tt, fs).
Proof.
  intros [Hd Hf]. cbn [fst snd] in *.
  unfold writeFileIfDifferent, bind, ensureDir.
  rewrite mkdirs_present by exact Hd. rewrite Hf.
  now rewrite String.eqb_refl.
Qed.

Lemma writeFileIfDifferent_spec (fs : FileSystem) (file data : string) :
  exists fs',
    writeFileIfDifferent file data fs = (Return tt, fs')
    /\ files fs' = <[file := data]> (files fs)
    /\ dirs fs ⊆ dirs fs'
    /\ Spec.settled fs' (file, data).
Proof.
  unfold writeFileIfDifferent, bind, ensureDir.
  destruct (mkdirs_spec
              (ancestors (String.length (dirname file)) (dirname file)
               ++ [dirname file]) fs) as (fs1 & -> & Hf & Hd & Hl).
  assert (dirname file ∈ dirs fs1) as Hp.
  { rewrite List.Forall_forall in Hl. apply Hl, in_app_iff. right. now left. }
  assert (exists fs',
             writeFile (dirname file) file data fs1 = (Return tt, fs')
             /\ files fs' = <[file := data]> (files fs)
             /\ dirs fs ⊆ dirs fs'
             /\ Spec.settled fs' (file, data)) as Hw.
  { unfold writeFile. destruct (decide _) as [_|n]; [|contradiction].
    eexists. split; [reflexivity|]. cbn [files dirs]. rewrite Hf.
    repeat split; [exact Hd|exact Hl|]. cbn [fst snd files].
    apply lookup_insert_eq. }
  destruct (files fs1 !! file) as [existing|] eqn:El; [|exact Hw].
  destruct (String.eqb existing data) eqn:Ee; [|exact Hw].
  apply String.eqb_eq in Ee. subst existing.
  exists fs1. split; [reflexivity|]. rewrite Hf in *.
  split; [symmetry; now apply insert_id|].
  split; [exact Hd|]. split; [exact Hl|]. cbn [fst snd]. now rewrite Hf.
Qed.

Lemma settled_frame (fs fs' : FileSystem) (task : string * string) :
  Spec.settled fs task ->
  dirs fs ⊆ dirs fs' ->
  files fs' !! fst task = files fs !! fst task ->
  Spec.settled fs' task.
Proof.
  intros [Hd Hf] Hs He. split; [|congruence].
  eapply List.Forall_impl; [|exact Hd]. cbn beta. set_solver.
Qed.

Lemma writeAll_settled (fs : FileSystem) (tasks : list (string * string)) :
  Forall (Spec.settled fs) tasks ->
  Spec.writeAll tasks fs = (Return tt, fs).
Proof.
  induction 1 as [|[file data] tasks Ht _ IH]; [reflexivity|].
  cbn [Spec.writeAll]. unfold bind.
  now rewrite writeFileIfDifferent_settled.
Qed.

Lemma writeAll_spec (fs : FileSystem) (tasks : list (string * string)) :
  List.NoDup (map fst tasks) ->
  exists fs',
    Spec.writeAll tasks fs = (Return tt, fs')
    /\ Forall (Spec.settled fs') tasks
    /\ dirs fs ⊆ dirs fs'
    /\ forall file, ~ In file (map fst tasks) ->
                    files fs' !! file = files fs !! file.
Proof.
  revert fs. induction tasks as [|[file data] tasks IH]; intros fs Hnd.
  - exists fs. repeat split; [constructor|set_solver].
  - cbn [map fst] in Hnd. apply List.NoDup_cons_iff in Hnd as [Hni Hnd].
    destruct (writeFileIfDifferent_spec fs file data)
      as (fs1 & E1 & Hf1 & Hd1 & Hs1).
    destruct (IH fs1 Hnd) as (fs2 & E2 & Hs2 & Hd2 & Hf2).
    exists fs2. cbn [Spec.writeAll]. unfold bind. rewrite E1.
    split; [exact E2|]. split; [|split].
    + constructor; [|exact Hs2].
      apply (settled_frame fs1); [exact Hs1|exact Hd2|]. now apply Hf2.
    + set_solver.
    + intros f Hf. cbn [map fst] in Hf.
      rewrite Hf2 by (intros i; apply Hf; now right).
      rewrite Hf1. apply lookup_insert_ne. intros ->. apply Hf. now left.
Qed.

End PipelineFacts.

(** ** What a writer leaves in the store *)

Section WriterFacts.

Context {C : Collaborators}.
Variable wxt : Wxt.

Lemma writeFileIfDifferent_emits {A} (value : A) (file data : string)
  (fs : FileSystem) :
  Spec.emits (writeFileIfDifferent file data ;; ret value) fs value file data.
Proof.
  destruct (writeFileIfDifferent_spec fs file data) as (fs' & E & Hf & _).
  exists fs'. unfold bind, ret. rewrite E. split; [reflexivity|].
  rewrite Hf. split; [apply lookup_insert_eq|].
  intros other Hne. apply lookup_insert_ne. congruence.
Qed.

Lemma writePathsDeclarationFile_emits (entrypoints : list Entrypoint.t)
  (fs : FileSystem) :
  Spec.emits (writePathsDeclarationFile wxt entrypoints) fs
    (resolve [typesDir (config wxt); "paths.d.ts"])
    (resolve [typesDir (config wxt); "paths.d.ts"])
    (pathsDeclaration wxt entrypoints).
Proof. apply writeFileIfDifferent_emits. Qed.

Lemma writeGlobalsDeclarationFile_emits (fs : FileSystem) :
  Spec.emits (writeGlobalsDeclarationFile wxt) fs
    (resolve [typesDir (config wxt); "globals.d.ts"])
    (resolve [typesDir (config wxt); "globals.d.ts"])
    (globalsDeclaration wxt).
Proof. apply writeFileIfDifferent_emits. Qed.

Lemma writeMainDeclarationFile_emits (references : list string)
  (fs : FileSystem) :
  Spec.emits (writeMainDeclarationFile wxt references) fs
    (resolve [wxtDir (config wxt); "wxt.d.ts"])
    (resolve [wxtDir (config wxt); "wxt.d.ts"])
    (mainDeclaration wxt references).
Proof. apply writeFileIfDifferent_emits. Qed.

Lemma writeTsConfigFile_emits (mainReference : string) (fs : FileSystem) :
  Spec.emits (writeTsConfigFile wxt mainReference) fs tt
    (resolve [wxtDir (config wxt); "tsconfig.json"])
    (tsconfig wxt mainReference).
Proof.
  destruct (writeFileIfDifferent_emits tt
              (resolve [wxtDir (config wxt); "tsconfig.json"])
              (tsconfig wxt mainReference) fs) as (fs' & E & H).
  exists fs'. split; [|exact H].
  unfold writeTsConfigFile. unfold bind, ret in E.
  destruct (writeFileIfDifferent _ _ fs) as [[[]|e] fs1];
    [exact E|discriminate].
Qed.

(** The file a writer is found to leave is the file of the store after its
    run. *)
Lemma emits_store {A} (writer : Async A) (fs : FileSystem) (value : A)
  (file text : string) :
  Spec.emits writer fs value file text ->
  fst (writer fs) = Return value
  /\ files (snd (writer fs)) !! file = Some text.
Proof. intros (fs' & -> & H & _). split; [reflexivity|exact H]. Qed.

End WriterFacts.

Lemma pathsTemplate_split :
  JS.splitAtFirst "{{ union }}" pathsTemplate
  = Some (Spec.pathsHead, Spec.pathsTail).
Proof. vm_compute. reflexivity. Qed.

(** ** The paths declaration file *)

Section PathsFacts.

Context {C : Collaborators}.
Variable wxt : Wxt.

Lemma pathsDeclaration_split (entrypoints : list Entrypoint.t) :
  pathsDeclaration wxt entrypoints
  = Spec.pathsHead
    +:+ JS.getSubstitution "{{ union }}" Spec.pathsHead Spec.pathsTail
          (JS.or_else (unions wxt entrypoints) "    | never")
    +:+ Spec.pathsTail.
Proof. unfold pathsDeclaration, JS.replace. now rewrite pathsTemplate_split. Qed.

(** The members are the rendered paths, none lost and none merged, in
    ascending order. *)
Lemma unionMembers_permutation (entrypoints : list Entrypoint.t) :
  Permutation
    (map unionMember (map normalizePath (publicPaths wxt entrypoints)))
    (unionMembers wxt entrypoints).
Proof. apply sort_permutation. Qed.

Lemma unionMembers_sorted (entrypoints : list Entrypoint.t) :
  StronglySorted JS.le (unionMembers wxt entrypoints).
Proof. apply sort_sorted. Qed.

Lemma unionMembers_length (entrypoints : list Entrypoint.t) :
  length (unionMembers wxt entrypoints)
  = length entrypoints + length getPublicFiles.
Proof.
  unfold unionMembers. rewrite sort_length, !length_map.
  unfold publicPaths. now rewrite length_app, length_map.
Qed.

(** As long as no path holds a [$], the file is the template with the union
    in the place of the placeholder. *)
Lemma pathsDeclaration_plain (entrypoints : list Entrypoint.t) :
  Spec.dollarFree (unions wxt entrypoints) = true ->
  unions wxt entrypoints <> "" ->
  pathsDeclaration wxt entrypoints
  = Spec.pathsHead +:+ unions wxt entrypoints +:+ Spec.pathsTail.
Proof.
  intros Hd Hne. rewrite pathsDeclaration_split.
  unfold JS.or_else. destruct (unions wxt entrypoints) as [|c u] eqn:E;
    [congruence|]. cbn [JS.truthy]. now rewrite getSubstitution_plain.
Qed.

(** C3: without entrypoints and public assets, the union has no member and
    the paths declaration file declares it as [| never]: whatever the store
    holds, [writePathsDeclarationFile] leaves [paths.d.ts] with the complete
    template in which the placeholder is replaced by the uninhabited type,
    and every other file as it was. *)
Theorem paths_empty_union_never (fs : FileSystem) :
  getPublicFiles = [] ->
  unionMembers wxt [] = []
  /\ pathsDeclaration wxt [] = Spec.neverDeclaration
  /\ Spec.emits (writePathsDeclarationFile wxt []) fs
       (resolve [typesDir (config wxt); "paths.d.ts"])
       (resolve [typesDir (config wxt); "paths.d.ts"])
       Spec.neverDeclaration.
Proof.
  intros H.
  assert (unionMembers wxt [] = []
          /\ pathsDeclaration wxt [] = Spec.neverDeclaration) as [Hu Hd].
  { unfold pathsDeclaration, unions, unionMembers, publicPaths.
    rewrite H. cbn [map app]. split; reflexivity. }
  split; [exact Hu|]. split; [exact Hd|].
  rewrite <- Hd. apply writePathsDeclarationFile_emits.
Qed.

End PathsFacts.

Lemma paths_empty_union_never_witness :
  let C := Example.withAssets [] in
  getPublicFiles = []
  /\ unionMembers Example.wxt [] = []
  /\ pathsDeclaration Example.wxt [] = Spec.neverDeclaration
  /\ fst (writePathsDeclarationFile Example.wxt [] Example.fresh)
     = Return "/project/.wxt/types/paths.d.ts"
  /\ files (snd (writePathsDeclarationFile Example.wxt [] Example.fresh))
     !! "/project/.wxt/types/paths.d.ts"
     = Some Spec.neverDeclaration.
Proof.
  intros C.
  assert (getPublicFiles = []) as H by reflexivity.
  split; [exact H|].
  destruct (paths_empty_union_never Example.wxt Example.fresh H)
    as (Hu & Hd & He).
  split; [exact Hu|]. split; [exact Hd|].
  exact (emits_store _ _ _ _ _ He).
Defined.

(** The example of the spec: the entrypoints popup (markup) and background
    (script) and the asset [icon.png] give the three members below, in this
    order, between the two parts of the template. *)
Lemma paths_union_example :
  unionMembers (C := Example.withAssets ["icon.png"]) Example.wxt
    [Example.popup; Example.background]
  = [ "    | " +:+ JS.quoted "/background.js";
      "    | " +:+ JS.quoted "/icon.png";
      "    | " +:+ JS.quoted "/popup.html" ]
  /\ pathsDeclaration (C := Example.withAssets ["icon.png"]) Example.wxt
       [Example.popup; Example.background]
     = Spec.pathsHead
       +:+ JS.text
             [ "    | " +:+ JS.quoted "/background.js";
               "    | " +:+ JS.quoted "/icon.png";
               "    | " +:+ JS.quoted "/popup.html" ]
       +:+ Spec.pathsTail.
Proof. split; vm_compute; reflexivity. Qed.

(** C2: for the public asset [a$$b.png] the union is computed with the
    member ["/a$$b.png"], but the file declares ["/a$b.png"]: the union is
    inserted with [String.prototype.replace], which reads [$$] in the
    replacement text as a substitution pattern. *)
Theorem paths_union_dollar_pattern :
  unionMembers (C := Example.withAssets ["a$$b.png"]) Example.wxt []
  = [ "    | " +:+ JS.quoted "/a$$b.png" ]
  /\ pathsDeclaration (C := Example.withAssets ["a$$b.png"]) Example.wxt []
     = Spec.pathsHead +:+ "    | " +:+ JS.quoted "/a$b.png" +:+ Spec.pathsTail
  /\ pathsDeclaration (C := Example.withAssets ["a$$b.png"]) Example.wxt []
     <> Spec.pathsHead
        +:+ unions (C := Example.withAssets ["a$$b.png"]) Example.wxt []
        +:+ Spec.pathsTail.
Proof. split; [|split]; vm_compute; [reflexivity..|discriminate]. Qed.

(** ** The localization declaration file *)

Lemma i18nTemplate_split :
  JS.splitAtFirst "{{ overrides }}" i18nTemplate
  = Some (Spec.i18nHead, Spec.i18nTail).
Proof. vm_compute. reflexivity. Qed.

Lemma i18nDeclaration_split (messages : list Message.t) :
  i18nDeclaration messages
  = Spec.i18nHead
    +:+ JS.getSubstitution "{{ overrides }}" Spec.i18nHead Spec.i18nTail
          (JS.join JS.LF (overrides messages))
    +:+ Spec.i18nTail.
Proof. unfold i18nDeclaration, JS.replace. now rewrite i18nTemplate_split. Qed.

(** One overload per message, in the order of the messages. *)
Lemma overrides_nth (messages : list Message.t) (i : nat) :
  nth_error (overrides messages) i
  = option_map override (nth_error messages i).
Proof. apply nth_error_map. Qed.

Lemma overrides_length (messages : list Message.t) :
  length (overrides messages) = length messages.
Proof. apply length_map. Qed.

(** As long as no message holds a [$], the file is the template with the
    overloads in the place of the placeholder. *)
Lemma i18nDeclaration_plain (messages : list Message.t) :
  Spec.dollarFree (JS.join JS.LF (overrides messages)) = true ->
  i18nDeclaration messages
  = Spec.i18nHead +:+ JS.join JS.LF (overrides messages) +:+ Spec.i18nTail.
Proof.
  intros H. rewrite i18nDeclaration_split. now rewrite getSubstitution_plain.
Qed.

Lemma getSubstitution_other (matched before after r : string) (c : ascii) :
  Ascii.eqb c "$" = false ->
  JS.getSubstitution matched before after (String c r)
  = String c (JS.getSubstitution matched before after r).
Proof. intros H. cbn [JS.getSubstitution]. now rewrite H. Qed.

Lemma getSubstitution_dollar (matched before after r : string) (d : ascii) :
  JS.getSubstitution matched before after (String "$" (String d r))
  = if Ascii.eqb d "$" then
      String "$" (JS.getSubstitution matched before after r)
    else if Ascii.eqb d "&" then
      matched +:+ JS.getSubstitution matched before after r
    else if Ascii.eqb d "096" then
      before +:+ JS.getSubstitution matched before after r
    else if Ascii.eqb d "'" then
      after +:+ JS.getSubstitution matched before after r
    else String "$" (JS.getSubstitution matched before after (String d r)).
Proof. reflexivity. Qed.

(** Patterns do not reach across a character that is none of [$], [&],
    the backquote and the quote. *)
Lemma getSubstitution_cut (matched before after a b : string) (c : ascii) :
  Ascii.eqb c "$" = false -> Ascii.eqb c "&" = false ->
  Ascii.eqb c "096" = false -> Ascii.eqb c "'" = false ->
  JS.getSubstitution matched before after (a +:+ String c b)
  = JS.getSubstitution matched before after (a +:+ String c "")
    +:+ JS.getSubstitution matched before after b.
Proof.
  intros H1 H2 H3 H4.
  set (gs := JS.getSubstitution matched before after).
  enough (forall a,
             gs (a +:+ String c b) = gs (a +:+ String c "") +:+ gs b
             /\ forall x,
                 gs (String x a +:+ String c b)
                 = gs (String x a +:+ String c "") +:+ gs b) as H
      by apply H.
  assert (gs (String c b) = gs (String c "") +:+ gs b) as E0.
  { unfold gs. now rewrite !getSubstitution_other. }
  clear a. induction a as [|y a [IH1 IH2]].
  - split; [exact E0|].
    intros x. rewrite !append_cons.
    change ("" +:+ String c b) with (String c b).
    change ("" +:+ String c "") with (String c "").
    destruct (Ascii.eqb x "$") eqn:Ex.
    + apply Ascii.eqb_eq in Ex. subst x. unfold gs in *.
      rewrite !getSubstitution_dollar, H1, H2, H3, H4.
      rewrite append_cons. f_equal. exact E0.
    + unfold gs in *. rewrite !(getSubstitution_other _ _ _ _ x) by exact Ex.
      rewrite append_cons. f_equal. exact E0.
  - split; [apply IH2|].
    intros x. rewrite !(append_cons x), !(append_cons y).
    destruct (Ascii.eqb x "$") eqn:Ex.
    + apply Ascii.eqb_eq in Ex. subst x. unfold gs in *.
      rewrite !getSubstitution_dollar.
      destruct (Ascii.eqb y "$"); [rewrite append_cons; f_equal; apply IH1|].
      destruct (Ascii.eqb y "&"); [rewrite IH1; symmetry; apply append_assoc|].
      destruct (Ascii.eqb y "096");
        [rewrite IH1; symmetry; apply append_assoc|].
      destruct (Ascii.eqb y "'"); [rewrite IH1; symmetry; apply append_assoc|].
      rewrite append_cons. f_equal. specialize (IH2 y).
      rewrite !append_cons in IH2. exact IH2.
    + unfold gs in *. rewrite !(getSubstitution_other _ _ _ _ x) by exact Ex.
      rewrite append_cons. f_equal. specialize (IH2 y).
      rewrite !append_cons in IH2. exact IH2.
Qed.

Lemma getSubstitution_prefix (matched before after p r : string) :
  Spec.dollarFree p = true ->
  JS.getSubstitution matched before after (p +:+ r)
  = p +:+ JS.getSubstitution matched before after r.
Proof.
  induction p as [|c p IH]; [reflexivity|].
  cbn [Spec.dollarFree]. intros [Hc Hp]%andb_prop.
  apply negb_true_iff in Hc. rewrite !append_cons.
  rewrite getSubstitution_other by exact Hc. now rewrite IH.
Qed.

Lemma join_split (sep x : string) (l1 l2 : list string) :
  exists pre post,
    JS.join sep (l1 ++ x :: l2) = pre +:+ x +:+ post
    /\ (pre = "" \/ exists a, pre = a +:+ sep).
Proof.
  induction l1 as [|y l1 (pre & post & E & Hpre)].
  - exists "". destruct l2 as [|z l2].
    + exists "". split; [|now left]. cbn [app JS.join String.concat].
      now rewrite append_nil_r.
    + exists (sep +:+ JS.join sep (z :: l2)). split; [reflexivity|now left].
  - assert (JS.join sep ((y :: l1) ++ x :: l2)
            = y +:+ sep +:+ JS.join sep (l1 ++ x :: l2)) as ->.
    { cbn [app]. destruct (l1 ++ x :: l2) eqn:El; [|reflexivity].
      now destruct l1. }
    rewrite E. exists (y +:+ sep +:+ pre), post. split.
    + now rewrite !append_assoc.
    + right. destruct Hpre as [->|(a & ->)].
      * exists y. now rewrite append_nil_r.
      * exists (y +:+ sep +:+ a). now rewrite !append_assoc.
Qed.

Lemma undocumentedOverride_opening (message : Message.t) :
  exists rest,
    Spec.undocumentedOverride message = Spec.fallbackComment +:+ rest.
Proof.
  exists (JS.text
            [ "     * " +:+ JS.quoted (Message.message message);
              "     */";
              "    getMessage(";
              "      messageName: " +:+ JS.quoted (Message.name message)
                +:+ ",";
              "      substitutions?: string | string[],";
              "      options?: GetMessageOptions,";
              "    ): string;" ]).
  reflexivity.
Qed.

(** C10: a message whose description is absent or empty is rendered as the
    overload documented with [No message description.]; the opening of that
    documentation comment is part of the declaration file whatever the other
    messages are, and the description line of no overload is empty. *)
Theorem missing_description_fallback
  (messages : list Message.t) (message : Message.t) :
  In message messages ->
  Message.description message = None \/ Message.description message = Some "" ->
  override message = Spec.undocumentedOverride message
  /\ JS.includes (i18nDeclaration messages) Spec.fallbackComment
  /\ forall m, In m messages -> documentedDescription m <> "".
Proof.
  intros Hin Hd.
  assert (override message = Spec.undocumentedOverride message) as Eo.
  { unfold override, documentedDescription, Spec.undocumentedOverride.
    destruct Hd as [-> | ->]; reflexivity. }
  split; [exact Eo|]. split.
  - destruct (in_split _ _ Hin) as (l1 & l2 & ->).
    rewrite i18nDeclaration_split. unfold overrides.
    rewrite map_app. cbn [map].
    destruct (join_split JS.LF (override message) (map override l1)
                (map override l2)) as (pre & post & -> & Hpre).
    rewrite Eo.
    destruct (undocumentedOverride_opening message) as (rest & ->).
    rewrite append_assoc.
    set (gs := JS.getSubstitution "{{ overrides }}" Spec.i18nHead Spec.i18nTail).
    assert (gs (Spec.fallbackComment +:+ rest +:+ post)
            = Spec.fallbackComment +:+ gs (rest +:+ post)) as Ef
        by (apply getSubstitution_prefix; reflexivity).
    destruct Hpre as [-> | (a & ->)].
    + change ("" +:+ ?x) with x. rewrite Ef.
      exists Spec.i18nHead, (gs (rest +:+ post) +:+ Spec.i18nTail).
      now rewrite !append_assoc.
    + rewrite append_assoc. change (JS.LF +:+ ?x) with (String "010" x).
      unfold gs at 1. rewrite getSubstitution_cut by reflexivity.
      fold gs. rewrite Ef.
      exists (Spec.i18nHead +:+ gs (a +:+ String "010" "")),
        (gs (rest +:+ post) +:+ Spec.i18nTail).
      now rewrite !append_assoc.
  - intros m _. unfold documentedDescription, JS.or_else.
    destruct (Message.description m) as [[|x d]|]; discriminate.
Qed.

Lemma missing_description_fallback_witness :
  let undescribed :=
    {| Message.name := "bye";
       Message.message := "Bye";
       Message.description := None |} in
  In undescribed [Example.greet; undescribed]
  /\ (Message.description undescribed = None
      \/ Message.description undescribed = Some "")
  /\ override undescribed = Spec.undocumentedOverride undescribed
  /\ JS.includes (i18nDeclaration [Example.greet; undescribed])
       Spec.fallbackComment
  /\ forall m,
      In m [Example.greet; undescribed] -> documentedDescription m <> "".
Proof.
  intros undescribed.
  assert (In undescribed [Example.greet; undescribed]) as Hin
      by (right; left; reflexivity).
  split; [exact Hin|]. split; [left; reflexivity|].
  exact (missing_description_fallback [Example.greet; undescribed] undescribed
           Hin (or_introl eq_refl)).
Defined.

Section CatalogFacts.

Context {C : Collaborators}.
Variable wxt : Wxt.

(** C9: with a default locale configured, a missing catalog makes the
    generator throw the file-not-found error of the read, a catalog that is
    not JSON the syntax error of [JSON.parse], and a catalog that the parser
    rejects the error of the parser; in each case the store, and with it the
    localization declaration file and the journal of writes, is left as it
    was. *)
Theorem catalog_errors_abort_before_write
  (fs : FileSystem) (locale : string) :
  default_locale (config wxt) = Some locale ->
  locale <> "" ->
  let catalog :=
    resolve [publicDir (config wxt); "_locales"; locale; "messages.json"] in
  (files fs !! catalog = None ->
   writeI18nDeclarationFile wxt fs = (Throw (ENOENT catalog), fs))
  /\ (forall data,
        files fs !! catalog = Some data ->
        JSON_parse data = None ->
        writeI18nDeclarationFile wxt fs = (Throw SyntaxError, fs))
  /\ (forall data content e,
        files fs !! catalog = Some data ->
        JSON_parse data = Some content ->
        parseI18nMessages content = Throw e ->
        writeI18nDeclarationFile wxt fs = (Throw e, fs)).
Proof.
  intros Hl Hne catalog.
  unfold writeI18nDeclarationFile, readMessages. rewrite Hl.
  destruct locale as [|c l]; [congruence|]. fold catalog.
  unfold bind, readFile, lift.
  split; [|split].
  - intros ->. reflexivity.
  - intros data -> ->. reflexivity.
  - intros data content e -> -> ->. reflexivity.
Qed.

(** Without a default locale the store is not read. *)
Lemma readMessages_without_locale (fs : FileSystem) :
  default_locale (config wxt) = None \/ default_locale (config wxt) = Some "" ->
  readMessages wxt fs = (parseI18nMessages (JS.JObj []), fs).
Proof. unfold readMessages. intros [-> | ->]; reflexivity. Qed.

End CatalogFacts.

Lemma catalog_errors_abort_before_write_witness :
  let C := Example.withAssets [] in
  let missing : FileSystem := {| files := ∅; dirs := ∅; journal := [] |} in
  let malformed := Example.withCatalog "{ greet: " in
  let invalid := Example.withCatalog ("{" +:+ JS.quoted "greet" +:+ ": 5}") in
  default_locale (config Example.localized) = Some "en"
  /\ "en" <> ""
  /\ writeI18nDeclarationFile Example.localized missing
     = (Throw (ENOENT Example.catalogPath), missing)
  /\ writeI18nDeclarationFile Example.localized malformed
     = (Throw SyntaxError, malformed)
  /\ writeI18nDeclarationFile Example.localized invalid
     = (Throw (Failure "invalid message"), invalid).
Proof.
  intros C missing malformed invalid.
  split; [reflexivity|]. split; [discriminate|].
  split; [|split].
  - apply (catalog_errors_abort_before_write (C := C) Example.localized
             missing "en" eq_refl ltac:(discriminate)).
    reflexivity.
  - apply (proj1 (proj2 (catalog_errors_abort_before_write (C := C)
                           Example.localized malformed "en" eq_refl
                           ltac:(discriminate))) "{ greet: ");
      reflexivity.
  - apply (proj2 (proj2 (catalog_errors_abort_before_write (C := C)
                           Example.localized invalid "en" eq_refl
                           ltac:(discriminate)))
             ("{" +:+ JS.quoted "greet" +:+ ": 5}")
             (JS.JObj [("greet", JS.JNum "5")]));
      reflexivity.
Defined.

(** The example of the spec, from the catalog file to the written file: one
    overload, for ["greet"], documented with the description and the
    message. *)
Lemma i18n_example :
  let C := Example.withAssets [] in
  let declaration :=
    Spec.i18nHead
    +:+ JS.text
          [ "    /**";
            "     * greeting";
            "     *";
            "     * " +:+ JS.quoted "Hi {{name}}";
            "     */";
            "    getMessage(";
            "      messageName: " +:+ JS.quoted "greet" +:+ ",";
            "      substitutions?: string | string[],";
            "      options?: GetMessageOptions,";
            "    ): string;" ]
    +:+ Spec.i18nTail in
  readMessages Example.localized (Example.withCatalog Example.greetCatalog)
  = (Return [Example.greet], Example.withCatalog Example.greetCatalog)
  /\ i18nDeclaration [Example.greet] = declaration
  /\ exists fs,
      writeI18nDeclarationFile Example.localized
        (Example.withCatalog Example.greetCatalog)
      = (Return "/project/.wxt/types/i18n.d.ts", fs)
      /\ files fs !! "/project/.wxt/types/i18n.d.ts" = Some declaration.
Proof.
  intros C declaration. split; [vm_compute; reflexivity|].
  split; [vm_compute; reflexivity|].
  eexists. split; [reflexivity|]. vm_compute. reflexivity.
Qed.

(** C7: for the catalog entry with the message [Price: $$5] the parser
    returns that message, but the declaration file documents [Price: $5]:
    the overloads are inserted with [String.prototype.replace], which reads
    [$$] in the replacement text as a substitution pattern. *)
Theorem i18n_dollar_pattern :
  readMessages (C := Example.withAssets []) Example.localized
    (Example.withCatalog Example.priceCatalog)
  = (Return [Example.price "Price: $$5"],
     Example.withCatalog Example.priceCatalog)
  /\ i18nDeclaration [Example.price "Price: $$5"]
     = Spec.i18nHead +:+ override (Example.price "Price: $5")
       +:+ Spec.i18nTail
  /\ i18nDeclaration [Example.price "Price: $$5"]
     <> Spec.i18nHead +:+ override (Example.price "Price: $$5")
        +:+ Spec.i18nTail.
Proof. split; [|split]; vm_compute; [reflexivity..|discriminate]. Qed.

(** ** The root declaration file *)

Section MainFacts.

Context {C : Collaborators}.
Variable wxt : Wxt.

Lemma moduleReferences_spec (modules : list WxtModule.t) :
  Spec.AugmentationReferences modules
    (map moduleReference (List.filter needsReference modules)).
Proof.
  induction modules as [|m ms IH]; [constructor|].
  cbn [List.filter]. destruct (needsReference m) eqn:E; unfold needsReference in E.
  - destruct (WxtModule.type m) eqn:Et; [discriminate|].
    destruct (WxtModule.configKey m) as [key|] eqn:Ek; [|discriminate].
    cbn [map]. now apply Spec.references_package with (key := key).
  - destruct (WxtModule.type m) eqn:Et; [now apply Spec.references_local|].
    destruct (WxtModule.configKey m) as [key|] eqn:Ek; [discriminate|].
    now apply Spec.references_keyless.
Qed.

Lemma AugmentationReferences_functional (modules : list WxtModule.t)
  (lines lines' : list string) :
  Spec.AugmentationReferences modules lines ->
  Spec.AugmentationReferences modules lines' ->
  lines = lines'.
Proof.
  intros H. revert lines'.
  induction H as [|m key ms ls Ht Hk _ IH|m ms ls Ht _ IH|m ms ls Hk _ IH];
    intros lines' H'; inversion H'; subst; try congruence;
    try (f_equal; now apply IH); now apply IH.
Qed.

Lemma mainDeclaration_lines (references : list string) :
  mainDeclaration wxt references
  = JS.join JS.LF
      ([ "// Generated by wxt";
         "/// <reference types=" +:+ JS.quoted "wxt/vite-builder-env"
           +:+ " />" ]
       ++ map (fileReference (wxtDir (config wxt))) references
       ++ moduleReferences wxt)
    +:+ JS.LF.
Proof. reflexivity. Qed.

End MainFacts.

(** C4: whatever the store holds, [writeMainDeclarationFile] leaves
    [wxt.d.ts] with the two opening lines, one directive per declaration
    file, and then the module directives, its last lines, which are the ones
    the modules are owed and no others: one per module that is installed
    from a package and has a configuration key, in the order of the modules.
    For the modules [a] (package, key), [b] (package, no key) and [c]
    (local, key) the only directive in the file written is the one for
    [a]. *)
Theorem module_references_filtered :
  (forall (C : Collaborators) (wxt : Wxt) (references : list string)
          (fs : FileSystem),
      Spec.AugmentationReferences (modules (config wxt)) (moduleReferences wxt)
      /\ (forall lines,
             Spec.AugmentationReferences (modules (config wxt)) lines ->
             lines = moduleReferences wxt)
      /\ length (moduleReferences wxt)
         = length (List.filter needsReference (modules (config wxt)))
      /\ exists lines,
          mainDeclaration wxt references
          = JS.join JS.LF (lines ++ moduleReferences wxt) +:+ JS.LF
          /\ lines
             = [ "// Generated by wxt";
                 "/// <reference types=" +:+ JS.quoted "wxt/vite-builder-env"
                   +:+ " />" ]
               ++ map (fileReference (wxtDir (config wxt))) references
          /\ length lines = 2 + length references
          /\ Spec.emits (writeMainDeclarationFile wxt references) fs
               (resolve [wxtDir (config wxt); "wxt.d.ts"])
               (resolve [wxtDir (config wxt); "wxt.d.ts"])
               (JS.join JS.LF (lines ++ moduleReferences wxt) +:+ JS.LF))
  /\ moduleReferences Example.withModules
     = [ "/// <reference types=" +:+ JS.quoted "a" +:+ " />" ]
  /\ mainDeclaration (C := Example.withAssets []) Example.withModules
       [ "/project/.wxt/types/paths.d.ts";
         "/project/.wxt/types/i18n.d.ts";
         "/project/.wxt/types/globals.d.ts" ]
     = JS.text
         [ "// Generated by wxt";
           "/// <reference types=" +:+ JS.quoted "wxt/vite-builder-env"
             +:+ " />";
           "/// <reference types=" +:+ JS.quoted "./types/paths.d.ts"
             +:+ " />";
           "/// <reference types=" +:+ JS.quoted "./types/i18n.d.ts"
             +:+ " />";
           "/// <reference types=" +:+ JS.quoted "./types/globals.d.ts"
             +:+ " />";
           "/// <reference types=" +:+ JS.quoted "a" +:+ " />";
           "" ]
  /\ files
       (snd (writeMainDeclarationFile (C := Example.withAssets [])
               Example.withModules
               [ "/project/.wxt/types/paths.d.ts";
                 "/project/.wxt/types/i18n.d.ts";
                 "/project/.wxt/types/globals.d.ts" ]
               Example.fresh))
     !! "/project/.wxt/wxt.d.ts"
     = Some
         (JS.text
            [ "// Generated by wxt";
              "/// <reference types=" +:+ JS.quoted "wxt/vite-builder-env"
                +:+ " />";
              "/// <reference types=" +:+ JS.quoted "./types/paths.d.ts"
                +:+ " />";
              "/// <reference types=" +:+ JS.quoted "./types/i18n.d.ts"
                +:+ " />";
              "/// <reference types=" +:+ JS.quoted "./types/globals.d.ts"
                +:+ " />";
              "/// <reference types=" +:+ JS.quoted "a" +:+ " />";
              "" ]).
Proof.
  split; [|split; [|split]; vm_compute; reflexivity].
  intros C wxt references fs. split; [apply moduleReferences_spec|].
  split.
  { intros lines H. eapply AugmentationReferences_functional; [exact H|].
    apply moduleReferences_spec. }
  split; [apply length_map|].
  exists ([ "// Generated by wxt";
            "/// <reference types=" +:+ JS.quoted "wxt/vite-builder-env"
              +:+ " />" ]
          ++ map (fileReference (wxtDir (config wxt))) references).
  assert (mainDeclaration wxt references
          = JS.join JS.LF
              (([ "// Generated by wxt";
                  "/// <reference types=" +:+ JS.quoted "wxt/vite-builder-env"
                    +:+ " />" ]
                ++ map (fileReference (wxtDir (config wxt))) references)
               ++ moduleReferences wxt) +:+ JS.LF) as E.
  { rewrite mainDeclaration_lines. now rewrite <- app_assoc. }
  split; [exact E|]. split; [reflexivity|]. split.
  - rewrite length_app, length_map. reflexivity.
  - rewrite <- E. apply writeMainDeclarationFile_emits.
Qed.

Lemma module_references_filtered_witness :
  let C := Example.withAssets [] in
  Spec.AugmentationReferences (modules (config Example.withModules))
    [Spec.augmentationReference "a"]
  /\ [Spec.augmentationReference "a"] = moduleReferences Example.withModules
  /\ exists lines,
      length lines = 2 + 0
      /\ files (snd (writeMainDeclarationFile Example.withModules []
                       Example.fresh))
         !! "/project/.wxt/wxt.d.ts"
         = Some (JS.join JS.LF (lines ++ [Spec.augmentationReference "a"])
                 +:+ JS.LF).
Proof.
  intros C.
  assert (Spec.AugmentationReferences (modules (config Example.withModules))
            [Spec.augmentationReference "a"]) as H.
  { unfold Example.withModules. cbn [modules config].
    apply (Spec.references_package
             {| WxtModule.type := WxtModule.node_module;
                WxtModule.id := "a";
                WxtModule.configKey := Some "a" |} "a"); [reflexivity..|].
    apply Spec.references_keyless; [reflexivity|].
    apply Spec.references_local; [reflexivity|]. constructor. }
  split; [exact H|].
  destruct module_references_filtered as [general _].
  destruct (general C Example.withModules [] Example.fresh)
    as (_ & unique & _ & lines & _ & _ & Hl & He).
  split; [exact (unique _ H)|].
  exists lines. split; [exact Hl|].
  rewrite (unique _ H).
  exact (proj2 (emits_store _ _ _ _ _ He)).
Defined.

(** ** The project descriptor *)

Section TsconfigFacts.

Context {C : Collaborators}.
Variable wxt : Wxt.

Lemma flat_map_pairs_nth {A B} (f : A -> B * B) (l : list A) (i : nat) (a : A) :
  nth_error l i = Some a ->
  nth_error (flat_map (fun x => [fst (f x); snd (f x)]) l) (2 * i)
  = Some (fst (f a))
  /\ nth_error (flat_map (fun x => [fst (f x); snd (f x)]) l) (2 * i + 1)
     = Some (snd (f a)).
Proof.
  revert i. induction l as [|x l IH]; intros [|i] H; try discriminate.
  - injection H as ->. split; reflexivity.
  - replace (2 * S i) with (S (S (2 * i))) by lia.
    replace (S (S (2 * i)) + 1) with (S (S (2 * i + 1))) by lia.
    cbn [flat_map app nth_error]. now apply IH.
Qed.

Lemma pathEntries_pairs :
  pathEntries wxt
  = flat_map
      (fun entry =>
         [ fst (Spec.pathMapping (fst entry) (getTsconfigPath wxt (snd entry)),
                Spec.pathMapping (fst entry +:+ "/*")
                  (getTsconfigPath wxt (snd entry) +:+ "/*"));
           snd (Spec.pathMapping (fst entry) (getTsconfigPath wxt (snd entry)),
                Spec.pathMapping (fst entry +:+ "/*")
                  (getTsconfigPath wxt (snd entry) +:+ "/*")) ])
      (alias (config wxt)).
Proof.
  unfold pathEntries. induction (alias (config wxt)) as [|[a p] l IH];
    [reflexivity|].
  cbn [flat_map]. now rewrite IH.
Qed.

Lemma pathEntries_nth (i : nat) (name target : string) :
  nth_error (alias (config wxt)) i = Some (name, target) ->
  nth_error (pathEntries wxt) (2 * i)
  = Some (Spec.pathMapping name (getTsconfigPath wxt target))
  /\ nth_error (pathEntries wxt) (2 * i + 1)
     = Some (Spec.pathMapping (name +:+ "/*")
               (getTsconfigPath wxt target +:+ "/*")).
Proof.
  intros H. rewrite pathEntries_pairs.
  exact (flat_map_pairs_nth
           (fun entry =>
              (Spec.pathMapping (fst entry) (getTsconfigPath wxt (snd entry)),
               Spec.pathMapping (fst entry +:+ "/*")
                 (getTsconfigPath wxt (snd entry) +:+ "/*")))
           _ i (name, target) H).
Qed.

Lemma pathEntries_length :
  length (pathEntries wxt) = 2 * length (alias (config wxt)).
Proof.
  unfold pathEntries. induction (alias (config wxt)) as [|[a p] l IH];
    [reflexivity|].
  cbn [flat_map aliasEntries length app]. rewrite IH. lia.
Qed.

(** The entries, separated by commas, are the body of the [paths] map. *)
Lemma tsconfig_paths (mainReference : string) :
  JS.includes (tsconfig wxt mainReference)
    ("    " +:+ JS.quoted "paths" +:+ ": {" +:+ JS.LF
     +:+ JS.join ("," +:+ JS.LF) (pathEntries wxt) +:+ JS.LF +:+ "    }").
Proof.
  exists
    (JS.text
       [ "{";
         "  " +:+ JS.quoted "compilerOptions" +:+ ": {";
         "    " +:+ JS.quoted "target" +:+ ": " +:+ JS.quoted "ESNext" +:+ ",";
         "    " +:+ JS.quoted "module" +:+ ": " +:+ JS.quoted "ESNext" +:+ ",";
         "    " +:+ JS.quoted "moduleResolution" +:+ ": "
           +:+ JS.quoted "Bundler" +:+ ",";
         "    " +:+ JS.quoted "noEmit" +:+ ": true,";
         "    " +:+ JS.quoted "esModuleInterop" +:+ ": true,";
         "    " +:+ JS.quoted "forceConsistentCasingInFileNames" +:+ ": true,";
         "    " +:+ JS.quoted "resolveJsonModule" +:+ ": true,";
         "    " +:+ JS.quoted "strict" +:+ ": true,";
         "    " +:+ JS.quoted "skipLibCheck" +:+ ": true,";
         "" ]),
    (JS.text
       [ "";
         "  },";
         "  " +:+ JS.quoted "include" +:+ ": [";
         "    "
           +:+ JS.quoted (getTsconfigPath wxt (root (config wxt)) +:+ "/**/*")
           +:+ ",";
         "    " +:+ JS.quoted ("./" +:+ getTsconfigPath wxt mainReference);
         "  ],";
         "  " +:+ JS.quoted "exclude" +:+ ": ["
           +:+ JS.quoted (getTsconfigPath wxt (outBaseDir (config wxt)))
           +:+ "]";
         "}" ]).
  unfold tsconfig, paths.
  generalize (JS.join ("," +:+ JS.LF) (pathEntries wxt)). intros body.
  unfold JS.text, JS.join. cbn [String.concat].
  rewrite !append_assoc. reflexivity.
Qed.

End TsconfigFacts.

(** C5: whatever the store holds, [writeTsConfigFile] leaves
    [tsconfig.json] with a [paths] map that has two entries for each alias
    and no other, in the order of the aliases: the alias itself, mapped to
    the normalized path of its target relative to the directory of the
    descriptor, and the alias followed by [/*], mapped to that path followed
    by [/*].  With the descriptor in [/project], the alias [@] for
    [/project/src] gives ["@": ["src"]] and ["@/*": ["src/*"]] in the file
    written. *)
Theorem alias_expansion :
  (forall (C : Collaborators) (wxt : Wxt),
      length (pathEntries wxt) = 2 * length (alias (config wxt))
      /\ (forall i name target,
             nth_error (alias (config wxt)) i = Some (name, target) ->
             let aliasPath :=
               normalizePath (relative (wxtDir (config wxt)) target) in
             nth_error (pathEntries wxt) (2 * i)
             = Some (Spec.pathMapping name aliasPath)
             /\ nth_error (pathEntries wxt) (2 * i + 1)
                = Some (Spec.pathMapping (name +:+ "/*") (aliasPath +:+ "/*")))
      /\ forall mainReference fs,
          JS.includes (tsconfig wxt mainReference)
            ("    " +:+ JS.quoted "paths" +:+ ": {" +:+ JS.LF
             +:+ JS.join ("," +:+ JS.LF) (pathEntries wxt) +:+ JS.LF
             +:+ "    }")
          /\ Spec.emits (writeTsConfigFile wxt mainReference) fs tt
               (resolve [wxtDir (config wxt); "tsconfig.json"])
               (tsconfig wxt mainReference))
  /\ pathEntries (C := Example.withAssets []) (Example.withAlias "/project")
     = [ "      " +:+ JS.quoted "@" +:+ ": [" +:+ JS.quoted "src" +:+ "]";
         "      " +:+ JS.quoted "@/*" +:+ ": [" +:+ JS.quoted "src/*" +:+ "]" ]
  /\ exists before after,
      files
        (snd (writeTsConfigFile (C := Example.withAssets [])
                (Example.withAlias "/project") "/project/wxt.d.ts"
                Example.fresh))
      !! "/project/tsconfig.json"
      = Some
          (before
           +:+ JS.text
                 [ "    " +:+ JS.quoted "paths" +:+ ": {";
                   "      " +:+ JS.quoted "@" +:+ ": [" +:+ JS.quoted "src"
                     +:+ "],";
                   "      " +:+ JS.quoted "@/*" +:+ ": ["
                     +:+ JS.quoted "src/*" +:+ "]";
                   "    }" ]
           +:+ after).
Proof.
  split.
  - intros C wxt. split; [apply pathEntries_length|]. split.
    + intros i name target H aliasPath.
      exact (pathEntries_nth wxt i name target H).
    + intros mainReference fs.
      split; [apply tsconfig_paths|apply writeTsConfigFile_emits].
  - split; [vm_compute; reflexivity|].
    destruct (tsconfig_paths (C := Example.withAssets [])
                (Example.withAlias "/project") "/project/wxt.d.ts")
      as (before & after & E).
    destruct (writeTsConfigFile_emits (C := Example.withAssets [])
                (Example.withAlias "/project") "/project/wxt.d.ts"
                Example.fresh) as (fs' & -> & Hf & _).
    exists before, after. cbn [snd].
    change (resolve [wxtDir (config (Example.withAlias "/project"));
                     "tsconfig.json"])
      with "/project/tsconfig.json" in Hf.
    rewrite Hf, E. reflexivity.
Qed.

Lemma alias_expansion_witness :
  let C := Example.withAssets [] in
  nth_error (alias (config (Example.withAlias "/project"))) 0
  = Some ("@", "/project/src")
  /\ nth_error (pathEntries (Example.withAlias "/project")) (2 * 0)
     = Some (Spec.pathMapping "@" "src")
  /\ nth_error (pathEntries (Example.withAlias "/project")) (2 * 0 + 1)
     = Some (Spec.pathMapping "@/*" "src/*")
  /\ files
       (snd (writeTsConfigFile (Example.withAlias "/project")
               "/project/wxt.d.ts" Example.fresh))
     !! "/project/tsconfig.json"
     = Some (tsconfig (Example.withAlias "/project") "/project/wxt.d.ts").
Proof.
  intros C. split; [reflexivity|].
  destruct alias_expansion as [general _].
  destruct (general C (Example.withAlias "/project"))
    as (_ & entries & written).
  destruct (entries 0 "@" "/project/src" eq_refl) as [bare wildcard].
  split; [exact bare|]. split; [exact wildcard|].
  destruct (written "/project/wxt.d.ts" Example.fresh) as [_ He].
  exact (proj2 (emits_store _ _ _ _ _ He)).
Defined.

(** With the descriptor in the [.wxt] directory of the project, the same
    alias is mapped to [../src]. *)
Lemma alias_expansion_in_wxtDir :
  pathEntries (C := Example.withAssets []) (Example.withAlias "/project/.wxt")
  = [ "      " +:+ JS.quoted "@" +:+ ": [" +:+ JS.quoted "../src" +:+ "]";
      "      " +:+ JS.quoted "@/*" +:+ ": [" +:+ JS.quoted "../src/*" +:+ "]" ].
Proof. vm_compute. reflexivity. Qed.

(** ** The globals declaration file *)

Section GlobalsFacts.

Context {C : Collaborators}.
Variable wxt : Wxt.

Lemma globalsLines_nth (i : nat) (global : Global.t) :
  nth_error (getGlobals (config wxt) ++ getEntrypointGlobals "") i
  = Some global ->
  nth_error (globalsLines wxt) (3 + i) = Some (member global).
Proof.
  intros H. unfold globalsLines. cbn [app nth_error Nat.add].
  rewrite nth_error_app1.
  - unfold globals. rewrite nth_error_map, H. reflexivity.
  - rewrite length_map. apply nth_error_Some. unfold globals. congruence.
Qed.

Lemma globalsLines_length :
  length (globalsLines wxt)
  = 7 + length (getGlobals (config wxt)) + length (getEntrypointGlobals "").
Proof.
  unfold globalsLines, globals.
  rewrite !length_app, length_map, length_app. cbn [length]. lia.
Qed.

(** A member of the build mode stands before every member of the entrypoint
    context. *)
Lemma globalsLines_shadowing (early late : Global.t) :
  In early (getGlobals (config wxt)) ->
  In late (getEntrypointGlobals "") ->
  exists before between after,
    globalsLines wxt
    = before ++ member early :: between ++ member late :: after.
Proof.
  intros (b1 & b2 & Eb)%in_split (e1 & e2 & Ee)%in_split.
  unfold globalsLines, globals. rewrite Eb, Ee.
  exists ([ "// Generated by wxt"; "export {}"; "interface ImportMetaEnv {" ]
          ++ map member b1),
    (map member b2 ++ map member e1),
    (map member e2
     ++ [ "}"; "interface ImportMeta {"; "  readonly env: ImportMetaEnv"; "}" ]).
  rewrite !map_app. cbn [map].
  rewrite <- ?app_assoc. cbn [app]. rewrite <- ?app_assoc. reflexivity.
Qed.

(** Under the rule that a later member shadows the earlier ones, a name the
    later list declares has the type the later list gives it. *)
Lemma effectiveType_app (name : string) (early late : list Global.t) :
  Spec.effectiveType name (early ++ late)
  = match Spec.effectiveType name late with
    | Some type => Some type
    | None => Spec.effectiveType name early
    end.
Proof.
  induction early as [|global early IH]; cbn [app Spec.effectiveType].
  - now destruct (Spec.effectiveType name late).
  - rewrite IH. now destruct (Spec.effectiveType name late).
Qed.

Lemma effectiveType_declared (name : string) (members : list Global.t) :
  (exists global, In global members /\ Global.name global = name)
  <-> exists type, Spec.effectiveType name members = Some type.
Proof.
  induction members as [|global members IH]; cbn [Spec.effectiveType In].
  - split; [intros (g & [] & _)|intros (type & H); discriminate].
  - destruct (Spec.effectiveType name members) as [type|].
    + split; [eauto|]. intros _.
      destruct (proj2 IH (ex_intro _ type eq_refl)) as (g & Hg & Hn). eauto.
    + destruct (String.eqb (Global.name global) name) eqn:E.
      * apply String.eqb_eq in E. split; [eauto|]. intros _. eauto.
      * apply String.eqb_neq in E. split.
        -- intros (g & [<-|Hg] & Hn); [contradiction|].
           apply IH. eauto.
        -- intros (type & H). discriminate.
Qed.

End GlobalsFacts.

(** C6: whatever the store holds, [writeGlobalsDeclarationFile] leaves
    [globals.d.ts] with the lines of [ImportMetaEnv] and [ImportMeta] around
    one member per global, the globals of the build mode followed by the
    globals of the entrypoint context asked for with the empty name; the
    member of the i-th global is the line [3 + i], so none is merged or
    moved, and a member of the build mode stands before every member of the
    entrypoint context.  When both sources define [X], the member of the
    entrypoint context comes second, and under the rule that a later member
    shadows the earlier ones its type is the type of [X]. *)
Theorem globals_members_in_order :
  (forall (C : Collaborators) (wxt : Wxt) (fs : FileSystem),
      globalsDeclaration wxt = JS.join JS.LF (globalsLines wxt) +:+ JS.LF
      /\ Spec.emits (writeGlobalsDeclarationFile wxt) fs
           (resolve [typesDir (config wxt); "globals.d.ts"])
           (resolve [typesDir (config wxt); "globals.d.ts"])
           (JS.join JS.LF (globalsLines wxt) +:+ JS.LF)
      /\ length (globalsLines wxt)
         = 7 + length (getGlobals (config wxt))
           + length (getEntrypointGlobals "")
      /\ (forall i global,
             nth_error (getGlobals (config wxt) ++ getEntrypointGlobals "") i
             = Some global ->
             nth_error (globalsLines wxt) (3 + i)
             = Some ("  readonly " +:+ Global.name global +:+ ": "
                     +:+ Global.type global +:+ ";"))
      /\ (forall early late,
             In early (getGlobals (config wxt)) ->
             In late (getEntrypointGlobals "") ->
             exists before between after,
               globalsLines wxt
               = before ++ member early :: between ++ member late :: after)
      /\ forall name,
          (exists late,
              In late (getEntrypointGlobals "") /\ Global.name late = name) ->
          exists type,
            Spec.effectiveType name (getEntrypointGlobals "") = Some type
            /\ Spec.effectiveType name
                 (getGlobals (config wxt) ++ getEntrypointGlobals "")
               = Some type)
  /\ globalsDeclaration (C := Example.shadowing) Example.wxt
     = JS.text
         [ "// Generated by wxt";
           "export {}";
           "interface ImportMetaEnv {";
           "  readonly X: string;";
           "  readonly X: number;";
           "}";
           "interface ImportMeta {";
           "  readonly env: ImportMetaEnv";
           "}";
           "" ]
  /\ files
       (snd (writeGlobalsDeclarationFile (C := Example.shadowing) Example.wxt
               Example.fresh))
     !! "/project/.wxt/types/globals.d.ts"
     = Some
         (JS.text
            [ "// Generated by wxt";
              "export {}";
              "interface ImportMetaEnv {";
              "  readonly X: string;";
              "  readonly X: number;";
              "}";
              "interface ImportMeta {";
              "  readonly env: ImportMetaEnv";
              "}";
              "" ])
  /\ Spec.effectiveType "X"
       (getGlobals (Collaborators := Example.shadowing) (config Example.wxt)
        ++ getEntrypointGlobals (Collaborators := Example.shadowing) "")
     = Some "number".
Proof.
  split; [|split; [|split]; vm_compute; reflexivity].
  intros C wxt fs. split; [reflexivity|].
  split; [apply writeGlobalsDeclarationFile_emits|].
  split; [apply globalsLines_length|].
  split; [apply globalsLines_nth|].
  split; [apply globalsLines_shadowing|].
  intros name Hlate.
  apply effectiveType_declared in Hlate as (type & Ht).
  exists type. split; [exact Ht|].
  rewrite effectiveType_app. now rewrite Ht.
Qed.

Lemma globals_members_in_order_witness :
  let C := Example.shadowing in
  let early := {| Global.name := "X"; Global.type := "string" |} in
  let late := {| Global.name := "X"; Global.type := "number" |} in
  In early (getGlobals (config Example.wxt))
  /\ In late (getEntrypointGlobals "")
  /\ (exists before between after,
         globalsLines Example.wxt
         = before ++ member early :: between ++ member late :: after)
  /\ (exists type,
         Spec.effectiveType "X" (getEntrypointGlobals "") = Some type
         /\ Spec.effectiveType "X"
              (getGlobals (config Example.wxt) ++ getEntrypointGlobals "")
            = Some type)
  /\ files (snd (writeGlobalsDeclarationFile Example.wxt Example.fresh))
     !! "/project/.wxt/types/globals.d.ts"
     = Some (JS.join JS.LF (globalsLines Example.wxt) +:+ JS.LF).
Proof.
  intros C early late.
  assert (In early (getGlobals (config Example.wxt))) as He
      by (left; reflexivity).
  assert (In late (getEntrypointGlobals "")) as Hl by (left; reflexivity).
  split; [exact He|]. split; [exact Hl|].
  destruct globals_members_in_order as [general _].
  destruct (general C Example.wxt Example.fresh)
    as (_ & written & _ & _ & order & shadows).
  split; [exact (order early late He Hl)|].
  split; [exact (shadows "X" (ex_intro _ late (conj Hl eq_refl)))|].
  exact (proj2 (emits_store _ _ _ _ _ written)).
Defined.

(** ** The lint-globals file *)

Lemma get_define_eq {V} (o : JS.object V) (k : string) (v : V) :
  JS.get (JS.define o k v) k = Some v.
Proof.
  induction o as [|[k' v'] o IH]; cbn [JS.define JS.get].
  - now rewrite String.eqb_refl.
  - destruct (String.eqb k' k) eqn:E; cbn [JS.get].
    + now rewrite E.
    + destruct (JS.precedes k k'); cbn [JS.get].
      * now rewrite String.eqb_refl.
      * now rewrite E.
Qed.

Lemma get_define_ne {V} (o : JS.object V) (k k2 : string) (v : V) :
  k <> k2 -> JS.get (JS.define o k v) k2 = JS.get o k2.
Proof.
  intros Hne. induction o as [|[k' v'] o IH]; cbn [JS.define JS.get].
  - now apply String.eqb_neq in Hne as ->.
  - destruct (String.eqb k' k) eqn:E; cbn [JS.get].
    + apply String.eqb_eq in E. subst k'.
      now apply String.eqb_neq in Hne as ->.
    + destruct (JS.precedes k k'); cbn [JS.get].
      * now apply String.eqb_neq in Hne as ->.
      * now rewrite IH.
Qed.

Lemma get_set_eq {V} (o : JS.object V) (k : string) (v : V) :
  k <> "__proto__" -> JS.get (JS.set o k v) k = Some v.
Proof.
  intros H. unfold JS.set. apply String.eqb_neq in H as ->.
  apply get_define_eq.
Qed.

Lemma get_set_ne {V} (o : JS.object V) (k k2 : string) (v : V) :
  k <> k2 -> JS.get (JS.set o k v) k2 = JS.get o k2.
Proof.
  intros H. unfold JS.set. destruct (String.eqb k "__proto__");
    [reflexivity|]. now apply get_define_ne.
Qed.

(** A key that is no array index is updated in place or appended. *)
Lemma keys_define_plain {V} (o : JS.object V) (k : string) (v : V) :
  JS.arrayIndex k = None ->
  JS.keys (JS.define o k v)
  = if in_dec string_dec k (JS.keys o) then JS.keys o else JS.keys o ++ [k].
Proof.
  intros Hk. unfold JS.keys.
  induction o as [|[k' v'] o IH]; cbn [JS.define map]; [reflexivity|].
  unfold JS.precedes. rewrite Hk.
  destruct (String.eqb k' k) eqn:E.
  - apply String.eqb_eq in E. subst k'. cbn [map fst].
    destruct (in_dec string_dec k (k :: map fst o)) as [_|n];
      [reflexivity|]. exfalso. apply n. now left.
  - apply String.eqb_neq in E. cbn [map fst]. rewrite IH.
    destruct (in_dec string_dec k (map fst o)) as [i|n];
      destruct (in_dec string_dec k (k' :: map fst o)) as [i'|n'];
      try reflexivity.
    + exfalso. apply n'. now right.
    + exfalso. destruct i' as [e|i']; [now apply E|now apply n].
Qed.

Section EslintFacts.

Variable unimport : Unimport.
Variable options : WxtResolvedUnimportOptions.

Let value := globalsPropValue (eslintrc options).
Let assign := fun (globals : JS.object EslintGlobalsPropValue) (name : string) =>
                JS.set globals name value.

Lemma eslintNames_spec (name : string) :
  In name (eslintNames unimport)
  <-> name <> ""
      /\ exists i, In i (getImports unimport) /\ Spec.boundName i = name.
Proof.
  unfold eslintNames. split.
  - intros H. apply (Permutation_in _ (Permutation_sym (sort_permutation _)))
      in H.
    apply filter_In in H as [H Ht]. apply in_map_iff in H as (i & <- & Hi).
    split; [now intros E; rewrite E in Ht|]. now exists i.
  - intros [Hne (i & Hi & <-)].
    apply (Permutation_in _ (sort_permutation _)). apply filter_In. split.
    + apply in_map_iff. now exists i.
    + destruct (Spec.boundName i); [congruence|reflexivity].
Qed.

Lemma get_assigned (names : list string) (o : JS.object EslintGlobalsPropValue)
  (name : string) :
  name <> "__proto__" ->
  JS.get (fold_left assign names o) name
  = if in_dec string_dec name names then Some value else JS.get o name.
Proof.
  intros Hp. revert o. induction names as [|n names IH]; intros o;
    [reflexivity|].
  cbn [fold_left]. rewrite IH.
  destruct (in_dec string_dec name names) as [i|ni];
    destruct (in_dec string_dec name (n :: names)) as [i'|ni'];
    try reflexivity.
  - exfalso. apply ni'. now right.
  - destruct i' as [->|i']; [|contradiction]. now apply get_set_eq.
  - unfold assign. apply get_set_ne. intros ->. apply ni'. now left.
Qed.

Lemma get_assigned_proto (names : list string)
  (o : JS.object EslintGlobalsPropValue) :
  JS.get (fold_left assign names o) "__proto__" = JS.get o "__proto__".
Proof.
  revert o. induction names as [|n names IH]; intros o; [reflexivity|].
  cbn [fold_left]. rewrite IH. unfold assign, JS.set.
  destruct (String.eqb n "__proto__") eqn:E; [reflexivity|].
  apply get_define_ne. now apply String.eqb_neq.
Qed.

Lemma eslintGlobals_get (name : string) :
  name <> "__proto__" ->
  JS.get (eslintGlobals unimport options) name
  = if in_dec string_dec name (eslintNames unimport) then Some value else None.
Proof.
  intros H. unfold eslintGlobals. now rewrite (get_assigned _ [] name H).
Qed.

Lemma eslintGlobals_get_proto :
  JS.get (eslintGlobals unimport options) "__proto__" = None.
Proof. unfold eslintGlobals. now rewrite (get_assigned_proto _ []). Qed.

Lemma StronglySorted_remove (l1 l2 : list string) (x : string) :
  StronglySorted JS.le (l1 ++ x :: l2) -> StronglySorted JS.le (l1 ++ l2).
Proof.
  induction l1 as [|a l1 IH]; cbn [app]; intros H.
  - now apply StronglySorted_inv in H.
  - apply StronglySorted_inv in H as [H Ha]. constructor; [now apply IH|].
    rewrite List.Forall_forall in *. intros y Hy. apply Ha.
    apply in_app_iff in Hy as [Hy|Hy]; apply in_app_iff;
      [now left|right; now right].
Qed.

Lemma keys_assigned_sorted (names : list string)
  (o : JS.object EslintGlobalsPropValue) :
  (forall n, In n names -> JS.arrayIndex n = None) ->
  StronglySorted JS.le (JS.keys o ++ names) ->
  List.NoDup (JS.keys o) ->
  StronglySorted JS.le (JS.keys (fold_left assign names o))
  /\ List.NoDup (JS.keys (fold_left assign names o)).
Proof.
  revert o. induction names as [|n names IH]; intros o Hidx Hs Hd.
  - cbn [fold_left]. now rewrite app_nil_r in Hs.
  - cbn [fold_left].
    assert (StronglySorted JS.le (JS.keys (assign o n) ++ names)
            /\ List.NoDup (JS.keys (assign o n))) as [Hs' Hd'].
    { unfold assign, JS.set. destruct (String.eqb n "__proto__").
      - split; [now apply StronglySorted_remove in Hs|exact Hd].
      - rewrite keys_define_plain by (apply Hidx; now left).
        destruct (in_dec string_dec n (JS.keys o)) as [i|ni].
        + split; [now apply StronglySorted_remove in Hs|exact Hd].
        + split; [now rewrite <- app_assoc|].
          apply List.NoDup_app; [exact Hd|repeat constructor; intros []|].
          intros a Ha [<-|[]]. contradiction. }
    apply IH; [|exact Hs'|exact Hd'].
    intros m Hm. apply Hidx. now right.
Qed.

End EslintFacts.

(** C8, amended: the lint-globals object maps the bound name of every import
    (the alias when there is one, the name otherwise) that is neither the
    empty string nor [__proto__] to the configured value, and maps nothing
    else; when no bound name is an array index, its keys are in ascending
    order, each once.  The file written is this object under the key
    [globals], serialized with two spaces of indentation. *)
Theorem eslint_globals_listed
  (unimport : Unimport) (options : WxtResolvedUnimportOptions) :
  let globals := eslintGlobals unimport options in
  let value := globalsPropValue (eslintrc options) in
  (forall i,
      In i (getImports unimport) ->
      Spec.boundName i <> "" ->
      Spec.boundName i <> "__proto__" ->
      JS.get globals (Spec.boundName i) = Some value)
  /\ (forall name v,
         JS.get globals name = Some v ->
         v = value
         /\ name <> ""
         /\ name <> "__proto__"
         /\ exists i, In i (getImports unimport) /\ Spec.boundName i = name)
  /\ ((forall i,
          In i (getImports unimport) ->
          JS.arrayIndex (Spec.boundName i) = None) ->
      StronglySorted JS.le (JS.keys globals) /\ List.NoDup (JS.keys globals))
  /\ forall (C : Collaborators) (fs : FileSystem),
      dirname (filePath (eslintrc options)) ∈ dirs fs ->
      writeImportsEslintFile unimport options fs
      = (Return tt,
         {| files :=
              <[filePath (eslintrc options) :=
                  JS.stringify "" (eslintrcJson globals) +:+ JS.LF]>
                (files fs);
            dirs := dirs fs;
            journal :=
              journal fs
              ++ [Write (filePath (eslintrc options))
                    (JS.stringify "" (eslintrcJson globals) +:+ JS.LF)] |}).
Proof.
  intros globals value. split; [|split; [|split]].
  - intros i Hi Hne Hp. unfold globals. rewrite eslintGlobals_get by exact Hp.
    destruct (in_dec string_dec _ _) as [_|n]; [reflexivity|].
    exfalso. apply n. apply eslintNames_spec. split; [exact Hne|].
    now exists i.
  - intros name v H. unfold globals in H.
    destruct (string_dec name "__proto__") as [->|Hp];
      [now rewrite eslintGlobals_get_proto in H|].
    rewrite eslintGlobals_get in H by exact Hp.
    destruct (in_dec string_dec _ _) as [i|_]; [|discriminate].
    apply eslintNames_spec in i as [Hne Hi].
    split; [now injection H as <-|]. repeat split; assumption.
  - intros Hidx. unfold globals, eslintGlobals.
    apply (keys_assigned_sorted options (eslintNames unimport) []).
    + intros n (_ & i & Hi & <-)%eslintNames_spec. now apply Hidx.
    + apply sort_sorted.
    + constructor.
  - intros C fs Hdir. unfold writeImportsEslintFile, writeJson, writeFile.
    destruct (decide _) as [_|n]; [reflexivity|contradiction].
Qed.

Lemma eslint_globals_listed_witness :
  let unimport := Example.found [Example.useStore; Example.defineConfig] in
  let globals := eslintGlobals unimport Example.lintOptions in
  In Example.defineConfig (getImports unimport)
  /\ Spec.boundName Example.defineConfig <> ""
  /\ JS.get globals "defineConfig" = Some (GlobalsBoolean true)
  /\ StronglySorted JS.le (JS.keys globals)
  /\ List.NoDup (JS.keys globals).
Proof.
  intros unimport globals.
  assert (In Example.defineConfig (getImports unimport)) as Hin
      by (right; left; reflexivity).
  assert (Spec.boundName Example.defineConfig <> "") as Hne by discriminate.
  destruct (eslint_globals_listed unimport Example.lintOptions)
    as (Hget & _ & Hsorted & _).
  split; [exact Hin|]. split; [exact Hne|].
  split; [exact (Hget Example.defineConfig Hin Hne ltac:(discriminate))|].
  apply Hsorted. intros i [<-|[<-|[]]]; reflexivity.
Defined.

(** The file of the two imports above. *)
Lemma eslint_example :
  let unimport := Example.found [Example.useStore; Example.defineConfig] in
  JS.keys (eslintGlobals unimport Example.lintOptions)
  = [ "defineConfig"; "useStore" ]
  /\ JS.stringify ""
       (eslintrcJson (eslintGlobals unimport Example.lintOptions))
     +:+ JS.LF
     = JS.text
         [ "{";
           "  " +:+ JS.quoted "globals" +:+ ": {";
           "    " +:+ JS.quoted "defineConfig" +:+ ": true,";
           "    " +:+ JS.quoted "useStore" +:+ ": true";
           "  }";
           "}";
           "" ].
Proof. split; vm_compute; reflexivity. Qed.

(** An import whose alias is the empty string is dropped by
    [filter(Boolean)]: the object maps neither its alias nor its name.  Names
    that are array indices are enumerated by their value, not in the order
    of their insertion: [10] is sorted before [9] and listed after.  The
    assignment to [__proto__] creates no property. *)
Lemma eslint_empty_alias_unlisted :
  let unimport := Example.found [Example.unnamed] in
  let numbered :=
    Example.found
      [ {| Import_.name := "9"; Import_.as_ := None |};
        {| Import_.name := "10"; Import_.as_ := None |} ] in
  let proto :=
    Example.found [ {| Import_.name := "__proto__"; Import_.as_ := None |} ] in
  (In Example.unnamed (getImports unimport)
   /\ Spec.boundName Example.unnamed = ""
   /\ eslintGlobals unimport Example.lintOptions = []
   /\ JS.get (eslintGlobals unimport Example.lintOptions)
        (Spec.boundName Example.unnamed) = None
   /\ JS.get (eslintGlobals unimport Example.lintOptions) "foo" = None)
  /\ (eslintNames numbered = [ "10"; "9" ]
      /\ JS.keys (eslintGlobals numbered Example.lintOptions) = [ "9"; "10" ])
  /\ eslintGlobals proto Example.lintOptions = [].
Proof.
  intros unimport numbered proto.
  split; [repeat split; now left|]. split; [|vm_compute; reflexivity].
  split; vm_compute; reflexivity.
Qed.

(** ** The pipeline *)

(** C1: with the lint-globals file enabled, the second run of the pipeline
    on unchanged inputs leaves every file as the first run wrote it, and yet
    performs a write: [writeImportsEslintFile] writes its file with
    [fs.writeJson], whatever the file holds, where the other writers use
    [writeFileIfDifferent]. *)
Theorem second_run_rewrites_eslintrc :
  let C := Example.linting in
  let run :=
    generateTypesDir Example.linted [Example.popup; Example.background] in
  let eslintrcFile := "/project/.wxt/eslintrc-auto-import.json" in
  let fs1 := snd (run Example.fresh) in
  let fs2 := snd (run fs1) in
  fst (run Example.fresh) = Return tt
  /\ map Spec.target (journal fs1)
     = [ "/project/.wxt";
         "/project/.wxt/types";
         "/project/.wxt/types/imports.d.ts";
         eslintrcFile;
         "/project/.wxt/types/paths.d.ts";
         "/project/.wxt/types/i18n.d.ts";
         "/project/.wxt/types/globals.d.ts";
         "/project/.wxt/wxt.d.ts";
         "/project/.wxt/tsconfig.json" ]
  /\ fst (run fs1) = Return tt
  /\ files fs2 = files fs1
  /\ exists data,
      files fs1 !! eslintrcFile = Some data
      /\ journal fs2 = journal fs1 ++ [Write eslintrcFile data].
Proof.
  intros C run eslintrcFile fs1 fs2.
  split; [vm_compute; reflexivity|].
  split; [vm_compute; reflexivity|].
  split; [vm_compute; reflexivity|].
  split; [vm_compute; reflexivity|].
  exists (JS.text
            [ "{";
              "  " +:+ JS.quoted "globals" +:+ ": {";
              "    " +:+ JS.quoted "defineConfig" +:+ ": true,";
              "    " +:+ JS.quoted "useStore" +:+ ": true";
              "  }";
              "}";
              "" ]).
  split; vm_compute; reflexivity.
Qed.

Section Idempotence.

Context {C : Collaborators}.
Variable wxt : Wxt.
Variable entrypoints : list Entrypoint.t.

(** Without the lint-globals file, the pipeline is a series of
    [writeFileIfDifferent] around the reading of the catalog. *)
Lemma generateTypesDir_normal (fs : FileSystem) :
  Spec.lintFree wxt ->
  generateTypesDir wxt entrypoints fs
  = (ensureDir (typesDir (config wxt)) ;;
     Spec.writeAll (Spec.writtenFirst wxt entrypoints) ;;
     messages <- readMessages wxt ;;
     Spec.writeAll (Spec.writtenLast wxt messages)) fs.
Proof.
  unfold Spec.lintFree, generateTypesDir, Spec.writtenFirst, Spec.writtenLast,
    Spec.references, writeImportsDeclarationFile, writePathsDeclarationFile,
    writeI18nDeclarationFile, writeGlobalsDeclarationFile,
    writeMainDeclarationFile, writeTsConfigFile.
  destruct (imports (config wxt)) as [options|]; [intros ->|intros _];
    cbv zeta; cbn [app Spec.writeAll]; unfold bind, ret;
    repeat (cbn [fst snd app];
            match goal with
            | |- context [ensureDir ?d ?s] =>
                destruct (ensureDir d s) as [[?|?] ?]
            | |- context [writeFileIfDifferent ?f ?d ?s] =>
                destruct (writeFileIfDifferent f d s) as [[?|?] ?]
            | |- context [readMessages ?w ?s] =>
                destruct (readMessages w s) as [[?|?] ?]
            end);
    repeat match goal with u : unit |- _ => destruct u end;
    reflexivity.
Qed.

Lemma readMessages_store (fs : FileSystem) :
  snd (readMessages wxt fs) = fs.
Proof.
  unfold readMessages.
  destruct (default_locale (config wxt)) as [[|c l]|]; try reflexivity.
  unfold bind, readFile, lift.
  destruct (files fs !! _); [|reflexivity].
  destruct (JSON_parse _); reflexivity.
Qed.

Lemma readMessages_frame (fs fs' : FileSystem) :
  (forall catalog,
      Spec.catalogFile wxt = Some catalog ->
      files fs' !! catalog = files fs !! catalog) ->
  fst (readMessages wxt fs') = fst (readMessages wxt fs).
Proof.
  unfold readMessages, Spec.catalogFile.
  destruct (default_locale (config wxt)) as [[|c l]|]; try reflexivity.
  intros H. unfold bind, readFile, lift. rewrite (H _ eq_refl).
  destruct (files fs !! _); [|reflexivity].
  destruct (JSON_parse _); reflexivity.
Qed.

Lemma writtenFirst_targets :
  map fst (Spec.writtenFirst wxt entrypoints) = map fst (Spec.writtenFirst wxt []).
Proof.
  unfold Spec.writtenFirst. now destruct (imports (config wxt)).
Qed.

(** X1: the second run of a pipeline that writes no lint-globals file
    changes nothing, neither a file nor a directory nor the journal, and
    ends as the first did, with the same value or the same error, when the
    files it writes are distinct and the catalog is none of them. *)
Theorem generateTypesDir_idempotent (fs fs1 : FileSystem) (r : Completion unit) :
  Spec.lintFree wxt ->
  List.NoDup (Spec.outputs wxt) ->
  (forall catalog,
      Spec.catalogFile wxt = Some catalog -> ~ In catalog (Spec.outputs wxt)) ->
  generateTypesDir wxt entrypoints fs = (r, fs1) ->
  generateTypesDir wxt entrypoints fs1 = (r, fs1).
Proof.
  intros Hlint Hnd Hcat. rewrite !generateTypesDir_normal by exact Hlint.
  unfold Spec.outputs in Hnd, Hcat.
  apply NoDup_app_inv in Hnd as (Hnd1 & Hdisj & Hnd2).
  rewrite <- writtenFirst_targets in Hnd1, Hdisj, Hcat.
  unfold bind at 1 2 3. unfold ensureDir.
  destruct (mkdirs_spec
              (ancestors (String.length (typesDir (config wxt)))
                 (typesDir (config wxt)) ++ [typesDir (config wxt)]) fs)
    as (fsa & -> & _ & _ & Hla).
  destruct (writeAll_spec fsa (Spec.writtenFirst wxt entrypoints) Hnd1)
    as (fsb & -> & Hsb & Hdb & _).
  pose proof (readMessages_store fsb) as Hst.
  destruct (readMessages wxt fsb) as [[messages|e] fsb'] eqn:Er;
    cbn [snd] in Hst; subst fsb'.
  - destruct (writeAll_spec fsb (Spec.writtenLast wxt messages) Hnd2)
      as (fsc & -> & Hsc & Hdc & Hfc).
    intros [= <- <-].
    assert (forall file,
               In file (map fst (Spec.writtenFirst wxt entrypoints)) ->
               files fsc !! file = files fsb !! file) as Hkeep
        by (intros file Hin; apply Hfc; intros Hin'; exact (Hdisj _ Hin Hin')).
    unfold bind.
    rewrite mkdirs_present
      by (eapply List.Forall_impl; [|exact Hla]; cbn beta; set_solver).
    rewrite writeAll_settled.
    + assert (readMessages wxt fsc = (Return messages, fsc)) as ->.
      { pose proof (readMessages_store fsc) as Hs.
        pose proof (readMessages_frame fsb fsc) as Hf.
        rewrite Er in Hf. destruct (readMessages wxt fsc) as [r' s'].
        cbn [fst snd] in *. subst s'. rewrite Hf; [reflexivity|].
        intros catalog Hc. apply Hfc. intros Hin.
        apply (Hcat _ Hc), in_app_iff. now right. }
      now apply writeAll_settled.
    + rewrite List.Forall_forall in *. intros task Ht.
      apply (settled_frame fsb); [now apply Hsb|exact Hdc|].
      apply Hkeep, in_map, Ht.
  - intros [= <- <-]. unfold bind.
    rewrite mkdirs_present
      by (eapply List.Forall_impl; [|exact Hla]; cbn beta; set_solver).
    rewrite writeAll_settled by exact Hsb. now rewrite Er.
Qed.

End Idempotence.

Lemma generateTypesDir_idempotent_witness :
  let C := Example.withAssets ["icon.png"] in
  let run :=
    generateTypesDir Example.localized [Example.popup; Example.background] in
  let fs := Example.withCatalog Example.greetCatalog in
  Spec.lintFree Example.localized
  /\ List.NoDup (Spec.outputs Example.localized)
  /\ Spec.catalogFile Example.localized = Some Example.catalogPath
  /\ ~ In Example.catalogPath (Spec.outputs Example.localized)
  /\ run fs = (fst (run fs), snd (run fs))
  /\ run (snd (run fs)) = (fst (run fs), snd (run fs)).
Proof.
  intros C run fs.
  assert (List.NoDup (Spec.outputs Example.localized)) as Hnd.
  { vm_compute. repeat constructor; cbn [In];
      intuition discriminate. }
  assert (~ In Example.catalogPath (Spec.outputs Example.localized)) as Hc.
  { vm_compute. intuition discriminate. }
  split; [exact I|]. split; [exact Hnd|]. split; [reflexivity|].
  split; [exact Hc|]. split; [apply surjective_pairing|].
  apply (generateTypesDir_idempotent (C := C) Example.localized
           [Example.popup; Example.background] fs (snd (run fs))
           (fst (run fs)) I Hnd).
  - intros catalog [= <-]. exact Hc.
  - apply surjective_pairing.
Defined.

(** The first run of that pipeline succeeds and writes the six files. *)
Lemma generateTypesDir_example :
  let C := Example.withAssets ["icon.png"] in
  let run :=
    generateTypesDir Example.localized [Example.popup; Example.background] in
  let fs := Example.withCatalog Example.greetCatalog in
  fst (run fs) = Return tt
  /\ map Spec.target (journal (snd (run fs)))
     = [ "/project/.wxt";
         "/project/.wxt/types";
         "/project/.wxt/types/paths.d.ts";
         "/project/.wxt/types/i18n.d.ts";
         "/project/.wxt/types/globals.d.ts";
         "/project/.wxt/wxt.d.ts";
         "/project/.wxt/tsconfig.json" ].
Proof. split; vm_compute; reflexivity. Qed.


(** ** The general statements behind the examples *)

Lemma writeI18nDeclarationFile_emits (C : Collaborators) (wxt : Wxt)
  (fs : FileSystem) (messages : list Message.t) :
  fst (readMessages wxt fs) = Return messages ->
  Spec.emits (writeI18nDeclarationFile wxt) fs
    (resolve [typesDir (config wxt); "i18n.d.ts"])
    (resolve [typesDir (config wxt); "i18n.d.ts"])
    (i18nDeclaration messages).
Proof.
  intros H. pose proof (readMessages_store wxt fs) as Hs.
  destruct (writeFileIfDifferent_emits
              (resolve [typesDir (config wxt); "i18n.d.ts"])
              (resolve [typesDir (config wxt); "i18n.d.ts"])
              (i18nDeclaration messages) fs) as (fs' & E & Hf).
  exists fs'. split; [|exact Hf].
  unfold writeI18nDeclarationFile. cbv zeta. unfold bind at 1.
  destruct (readMessages wxt fs) as [r fs0]. cbn [fst snd] in *. subst.
  exact E.
Qed.

(** X2: the members of the union are the rendered paths of the entrypoints
    and of the public assets, none lost and none merged, in ascending order;
    as long as the union holds no [$], [writePathsDeclarationFile] leaves
    [paths.d.ts] with the template in which the union stands in the place of
    the placeholder, whatever the store holds. *)
Theorem paths_union_members
  (C : Collaborators) (wxt : Wxt) (entrypoints : list Entrypoint.t) :
  Permutation
    (map (fun path => "    | " +:+ JS.quoted ("/" +:+ normalizePath path))
       (map
          (fun entry =>
             getEntrypointBundlePath entry (outDir (config wxt))
               (if isHtmlEntrypoint entry then ".html" else ".js"))
          entrypoints
        ++ getPublicFiles))
    (unionMembers wxt entrypoints)
  /\ StronglySorted JS.le (unionMembers wxt entrypoints)
  /\ (forall members,
         Permutation (unionMembers wxt entrypoints) members ->
         StronglySorted JS.le members ->
         members = unionMembers wxt entrypoints)
  /\ (unionMembers wxt entrypoints <> [] ->
      Spec.dollarFree (JS.join JS.LF (unionMembers wxt entrypoints)) = true ->
      pathsDeclaration wxt entrypoints
      = Spec.pathsHead +:+ JS.join JS.LF (unionMembers wxt entrypoints)
        +:+ Spec.pathsTail
      /\ forall fs,
          Spec.emits (writePathsDeclarationFile wxt entrypoints) fs
            (resolve [typesDir (config wxt); "paths.d.ts"])
            (resolve [typesDir (config wxt); "paths.d.ts"])
            (Spec.pathsHead +:+ JS.join JS.LF (unionMembers wxt entrypoints)
             +:+ Spec.pathsTail)).
Proof.
  split.
  { rewrite <- (map_map normalizePath
                  (fun path => "    | " +:+ JS.quoted ("/" +:+ path))).
    apply unionMembers_permutation. }
  split; [apply unionMembers_sorted|]. split.
  - intros members Hp Hs. symmetry.
    apply sorted_permutation_unique;
      [apply unionMembers_sorted|exact Hs|exact Hp].
  - intros Hne Hd.
    assert (pathsDeclaration wxt entrypoints
            = Spec.pathsHead +:+ JS.join JS.LF (unionMembers wxt entrypoints)
              +:+ Spec.pathsTail) as E.
    { apply pathsDeclaration_plain; [exact Hd|].
      unfold unions. destruct (unionMembers wxt entrypoints) as [|m ms] eqn:E;
        [congruence|].
      assert (In m (map unionMember
                      (map normalizePath (publicPaths wxt entrypoints))))
        as (p & <- & _)%in_map_iff.
      { apply (Permutation_in _
                 (Permutation_sym (unionMembers_permutation wxt entrypoints))).
        rewrite E. now left. }
      destruct ms; discriminate. }
    split; [exact E|]. intros fs. rewrite <- E.
    apply writePathsDeclarationFile_emits.
Qed.

(** X3: when the catalog of the store gives the messages and their
    overloads hold no [$], [writeI18nDeclarationFile] leaves [i18n.d.ts]
    with the template in which the overloads, one for each message and in
    the order of the messages, separated by line feeds, stand in the place
    of the placeholder, and every other file as it was. *)
Theorem i18n_overloads_in_order (C : Collaborators) (wxt : Wxt)
  (fs : FileSystem) (messages : list Message.t) :
  fst (readMessages wxt fs) = Return messages ->
  Spec.dollarFree (JS.join JS.LF (map override messages)) = true ->
  Spec.emits (writeI18nDeclarationFile wxt) fs
    (resolve [typesDir (config wxt); "i18n.d.ts"])
    (resolve [typesDir (config wxt); "i18n.d.ts"])
    (Spec.i18nHead +:+ JS.join JS.LF (map override messages)
     +:+ Spec.i18nTail).
Proof.
  intros Hr Hd. change (map override messages) with (overrides messages).
  rewrite <- (i18nDeclaration_plain messages Hd).
  now apply writeI18nDeclarationFile_emits.
Qed.

Lemma i18n_overloads_in_order_witness :
  let C := Example.withAssets [] in
  let fs := Example.withCatalog Example.greetCatalog in
  fst (readMessages Example.localized fs) = Return [Example.greet]
  /\ Spec.dollarFree (JS.join JS.LF (map override [Example.greet])) = true
  /\ fst (writeI18nDeclarationFile Example.localized fs)
     = Return "/project/.wxt/types/i18n.d.ts"
  /\ files (snd (writeI18nDeclarationFile Example.localized fs))
     !! "/project/.wxt/types/i18n.d.ts"
     = Some (Spec.i18nHead +:+ JS.join JS.LF (map override [Example.greet])
             +:+ Spec.i18nTail).
Proof.
  intros C fs.
  assert (fst (readMessages Example.localized fs) = Return [Example.greet])
    as Hr by (vm_compute; reflexivity).
  assert (Spec.dollarFree (JS.join JS.LF (map override [Example.greet]))
          = true) as Hd by (vm_compute; reflexivity).
  split; [exact Hr|]. split; [exact Hd|].
  exact (emits_store _ _ _ _ _
           (i18n_overloads_in_order C Example.localized fs [Example.greet]
              Hr Hd)).
Defined.

(** ** The pipeline, step by step *)

Section PlanFacts.

Context {C : Collaborators}.

(** What one write does: it succeeds and the file holds the data, or it is
    the write of [fs.writeJson] into a directory that does not exist. *)
Lemma run_outcome (step : Plan.Step) (fs fs' : FileSystem)
  (r : Completion unit) :
  Plan.run step fs = (r, fs') ->
  (r = Return tt
   /\ files fs' = <[Plan.file step := Plan.data step]> (files fs)
   /\ dirs fs ⊆ dirs fs')
  \/ (r = Throw (ENOENT (Plan.file step))
      /\ fs' = fs
      /\ exists data, step = Plan.Overwrite (Plan.file step) data).
Proof.
  destruct step as [file data|file data]; cbn [Plan.run Plan.file Plan.data].
  - destruct (writeFileIfDifferent_spec fs file data)
      as (fs1 & -> & Hf & Hd & _).
    intros [= <- <-]. left. auto.
  - unfold writeFile. destruct (decide _) as [i|n]; intros [= <- <-].
    + left. cbn [files dirs]. auto.
    + right. eauto.
Qed.

Lemma runAll_frame (steps : list Plan.Step) (fs fs' : FileSystem)
  (r : Completion unit) :
  Plan.runAll steps fs = (r, fs') ->
  (forall path, ~ In path (map Plan.file steps) ->
                files fs' !! path = files fs !! path)
  /\ (forall path, is_Some (files fs !! path) -> is_Some (files fs' !! path))
  /\ dirs fs ⊆ dirs fs'.
Proof.
  revert fs. induction steps as [|step steps IH]; intros fs.
  - intros [= <- <-]. auto.
  - cbn [Plan.runAll]. unfold bind.
    destruct (Plan.run step fs) as [[[]|e] fs1] eqn:E1.
    + intros E2. apply run_outcome in E1 as [(_ & Hf & Hd)|(? & _)];
        [|discriminate].
      destruct (IH _ E2) as (H1 & H2 & H3). split; [|split].
      * intros path Hp. cbn [map] in Hp. rewrite H1, Hf.
        -- apply lookup_insert_ne. intros <-. apply Hp. now left.
        -- intros Hin. apply Hp. now right.
      * intros path Hs. apply H2. rewrite Hf.
        destruct (decide (Plan.file step = path)) as [<-|Hne].
        -- rewrite lookup_insert_eq. eauto.
        -- now rewrite lookup_insert_ne.
      * etrans; [exact Hd|exact H3].
    + intros [= <- <-].
      apply run_outcome in E1 as [(? & _)|(_ & -> & _)]; [discriminate|].
      auto.
Qed.

Lemma runAll_success (steps : list Plan.Step) (fs fs' : FileSystem) :
  List.NoDup (map Plan.file steps) ->
  Plan.runAll steps fs = (Return tt, fs') ->
  Forall (fun step => files fs' !! Plan.file step = Some (Plan.data step))
    steps.
Proof.
  revert fs. induction steps as [|step steps IH]; intros fs Hnd;
    [constructor|].
  cbn [map] in Hnd. apply List.NoDup_cons_iff in Hnd as [Hni Hnd].
  cbn [Plan.runAll]. unfold bind.
  destruct (Plan.run step fs) as [[[]|e] fs1] eqn:E1; [|discriminate].
  intros E2. apply run_outcome in E1 as [(_ & Hf & _)|(? & _)];
    [|discriminate].
  constructor; [|now apply (IH fs1)].
  destruct (runAll_frame _ _ _ _ E2) as (H1 & _).
  rewrite (H1 _ Hni), Hf. apply lookup_insert_eq.
Qed.

(** A failed plan has failed at a write of [fs.writeJson]. *)
Lemma runAll_failure (steps : list Plan.Step) (fs fs' : FileSystem)
  (e : Error) :
  Plan.runAll steps fs = (Throw e, fs') ->
  exists file data, In (Plan.Overwrite file data) steps /\ e = ENOENT file.
Proof.
  revert fs. induction steps as [|step steps IH]; intros fs; [discriminate|].
  cbn [Plan.runAll]. unfold bind.
  destruct (Plan.run step fs) as [[[]|e1] fs1] eqn:E1.
  - intros E2. apply IH in E2 as (file & data & Hin & ->).
    exists file, data. split; [now right|reflexivity].
  - intros [= <- <-].
    apply run_outcome in E1 as [(? & _)|(He & _ & data & ->)];
      [discriminate|].
    injection He as ->. eexists _, data. split; [now left|reflexivity].
Qed.

End PlanFacts.

Section PipelineByPlan.

Context {C : Collaborators}.
Variable wxt : Wxt.
Variable entrypoints : list Entrypoint.t.

(** [generateTypesDir] carries out its plan around the reading of the
    catalog. *)
Lemma generateTypesDir_plan (fs : FileSystem) :
  generateTypesDir wxt entrypoints fs
  = (ensureDir (typesDir (config wxt)) ;;
     Plan.runAll (Plan.first wxt entrypoints) ;;
     messages <- readMessages wxt ;;
     Plan.runAll (Plan.last wxt messages)) fs.
Proof.
  unfold generateTypesDir, Plan.first, Plan.last, Plan.eslintrcText,
    Spec.references, writeImportsDeclarationFile, writeImportsEslintFile,
    writeJson, writePathsDeclarationFile, writeI18nDeclarationFile,
    writeGlobalsDeclarationFile, writeMainDeclarationFile, writeTsConfigFile.
  destruct (imports (config wxt)) as [options|];
    [destruct (enabled (eslintrc options))|];
    cbv zeta; cbn [app Plan.runAll Plan.run]; unfold bind, ret;
    repeat (cbn [fst snd app];
            match goal with
            | |- context [ensureDir ?d ?s] =>
                destruct (ensureDir d s) as [[?|?] ?]
            | |- context [writeFileIfDifferent ?f ?d ?s] =>
                destruct (writeFileIfDifferent f d s) as [[?|?] ?]
            | |- context [writeFile ?p ?f ?d ?s] =>
                destruct (writeFile p f d s) as [[?|?] ?]
            | |- context [readMessages ?w ?s] =>
                destruct (readMessages w s) as [[?|?] ?]
            end);
    repeat match goal with u : unit |- _ => destruct u end;
    reflexivity.
Qed.

Lemma first_files :
  map Plan.file (Plan.first wxt entrypoints) = Plan.firstTargets wxt.
Proof.
  unfold Plan.first, Plan.firstTargets.
  destruct (imports (config wxt)) as [options|];
    [destruct (enabled (eslintrc options))|]; reflexivity.
Qed.

Lemma last_files (messages : list Message.t) :
  map Plan.file (Plan.last wxt messages) = Plan.lastTargets wxt.
Proof. reflexivity. Qed.

Lemma keeps_refl (paths : list string) (fs : FileSystem) :
  Plan.keeps paths fs fs.
Proof. repeat split; auto. Qed.

Lemma keeps_trans (paths1 paths2 paths : list string)
  (fs1 fs2 fs3 : FileSystem) :
  incl paths1 paths -> incl paths2 paths ->
  Plan.keeps paths1 fs1 fs2 -> Plan.keeps paths2 fs2 fs3 ->
  Plan.keeps paths fs1 fs3.
Proof.
  intros I1 I2 (A1 & A2 & A3) (B1 & B2 & B3). split; [|split].
  - intros path Hp. rewrite B1, A1; auto.
  - auto.
  - set_solver.
Qed.

Lemma ensureDir_outcome (dir : string) (fs : FileSystem) :
  exists fs',
    ensureDir dir fs = (Return tt, fs')
    /\ files fs' = files fs
    /\ dirs fs ⊆ dirs fs'
    /\ dir ∈ dirs fs'.
Proof.
  unfold ensureDir.
  destruct (mkdirs_spec (ancestors (String.length dir) dir ++ [dir]) fs)
    as (fs' & E & Hf & Hd & Hl).
  exists fs'. repeat split; try assumption.
  rewrite List.Forall_forall in Hl. apply Hl, in_app_iff. right. now left.
Qed.

(** The store after a run, whatever its outcome, against the store
    before. *)
Lemma generateTypesDir_keeps (fs fs' : FileSystem) (r : Completion unit) :
  generateTypesDir wxt entrypoints fs = (r, fs') ->
  Plan.keeps (Plan.targets wxt) fs fs' /\ typesDir (config wxt) ∈ dirs fs'.
Proof.
  rewrite generateTypesDir_plan. unfold bind.
  destruct (ensureDir_outcome (typesDir (config wxt)) fs)
    as (fsa & -> & Hfa & Hda & Hta).
  assert (Plan.keeps [] fs fsa) as Ka.
  { repeat split; [intros; now rewrite Hfa|intros ?; now rewrite Hfa|exact Hda]. }
  destruct (Plan.runAll (Plan.first wxt entrypoints) fsa) as [r1 fs1] eqn:E1.
  pose proof (runAll_frame _ _ _ _ E1) as K1. rewrite first_files in K1.
  fold (Plan.keeps (Plan.firstTargets wxt) fsa fs1) in K1.
  assert (Plan.keeps (Plan.targets wxt) fs fs1) as K.
  { apply (keeps_trans [] (Plan.firstTargets wxt) _ fs fsa fs1);
      [intros ? []|apply incl_appl, incl_refl|exact Ka|exact K1]. }
  assert (typesDir (config wxt) ∈ dirs fs1) as Ht
      by (destruct K1 as (_ & _ & ?); set_solver).
  destruct r1 as [[]|e1]; [|intros [= <- <-]; now split].
  pose proof (readMessages_store wxt fs1) as Hs.
  destruct (readMessages wxt fs1) as [[messages|e2] fs2]; cbn [snd] in Hs;
    subst fs2; [|intros [= <- <-]; now split].
  intros E2. pose proof (runAll_frame _ _ _ _ E2) as K2.
  rewrite last_files in K2.
  fold (Plan.keeps (Plan.lastTargets wxt) fs1 fs') in K2. split.
  - apply (keeps_trans (Plan.targets wxt) (Plan.lastTargets wxt) _ fs fs1 fs');
      [apply incl_refl|apply incl_appr, incl_refl|exact K|exact K2].
  - destruct K2 as (_ & _ & ?). set_solver.
Qed.

(** X4: whatever its outcome, a run of the pipeline changes no file but
    the declaration files, the project descriptor and, when it is enabled,
    the lint-globals file; it removes no file and no directory, and the
    types directory exists afterwards. *)
Theorem generateTypesDir_frame (fs : FileSystem) :
  let written :=
    match imports (config wxt) with
    | Some options =>
        resolve [typesDir (config wxt); "imports.d.ts"]
        :: (if enabled (eslintrc options)
            then [filePath (eslintrc options)]
            else [])
    | None => []
    end
    ++ [ resolve [typesDir (config wxt); "paths.d.ts"];
         resolve [typesDir (config wxt); "i18n.d.ts"];
         resolve [typesDir (config wxt); "globals.d.ts"];
         resolve [wxtDir (config wxt); "wxt.d.ts"];
         resolve [wxtDir (config wxt); "tsconfig.json"] ] in
  let fs' := snd (generateTypesDir wxt entrypoints fs) in
  (forall path, ~ In path written -> files fs' !! path = files fs !! path)
  /\ (forall path, is_Some (files fs !! path) -> is_Some (files fs' !! path))
  /\ dirs fs ⊆ dirs fs'
  /\ typesDir (config wxt) ∈ dirs fs'.
Proof.
  intros written fs'.
  destruct (generateTypesDir_keeps fs fs'
              (fst (generateTypesDir wxt entrypoints fs))
              (surjective_pairing _)) as ((K1 & K2 & K3) & Ht).
  assert (written = Plan.targets wxt) as ->.
  { unfold written, Plan.targets, Plan.firstTargets, Plan.lastTargets.
    now rewrite <- app_assoc. }
  auto.
Qed.

(** X5: when the files the pipeline writes are distinct and the catalog is
    none of them, a run that succeeds leaves every one of them with its
    text: the declarations of the scanned engine, the lint-globals of the
    same engine, the paths, the overloads of the messages found in the
    store, the globals, the root file referring to the declaration files
    that were written, in the order imports, paths, i18n, globals, and the
    descriptor including that root file. *)
Theorem generateTypesDir_postcondition (fs fs' : FileSystem) :
  List.NoDup (Plan.targets wxt) ->
  (forall catalog,
      Spec.catalogFile wxt = Some catalog ->
      ~ In catalog (Plan.targets wxt)) ->
  generateTypesDir wxt entrypoints fs = (Return tt, fs') ->
  exists messages,
    fst (readMessages wxt fs) = Return messages
    /\ (forall options,
           imports (config wxt) = Some options ->
           let unimport :=
             scanImportsFromDir (createUnimport options)
               (srcDir (config wxt)) in
           files fs' !! resolve [typesDir (config wxt); "imports.d.ts"]
           = Some (importsDeclaration unimport)
           /\ (enabled (eslintrc options) = true ->
               files fs' !! filePath (eslintrc options)
               = Some (JS.stringify ""
                         (eslintrcJson (eslintGlobals unimport options))
                       +:+ JS.LF)))
    /\ files fs' !! resolve [typesDir (config wxt); "paths.d.ts"]
       = Some (pathsDeclaration wxt entrypoints)
    /\ files fs' !! resolve [typesDir (config wxt); "i18n.d.ts"]
       = Some (i18nDeclaration messages)
    /\ files fs' !! resolve [typesDir (config wxt); "globals.d.ts"]
       = Some (globalsDeclaration wxt)
    /\ files fs' !! resolve [wxtDir (config wxt); "wxt.d.ts"]
       = Some (mainDeclaration wxt
                 (match imports (config wxt) with
                  | Some _ => [resolve [typesDir (config wxt); "imports.d.ts"]]
                  | None => []
                  end
                  ++ [ resolve [typesDir (config wxt); "paths.d.ts"];
                       resolve [typesDir (config wxt); "i18n.d.ts"];
                       resolve [typesDir (config wxt); "globals.d.ts"] ]))
    /\ files fs' !! resolve [wxtDir (config wxt); "tsconfig.json"]
       = Some (tsconfig wxt (resolve [wxtDir (config wxt); "wxt.d.ts"])).
Proof.
  intros Hnd Hcat. rewrite generateTypesDir_plan. unfold bind.
  unfold Plan.targets in Hnd.
  apply NoDup_app_inv in Hnd as (Hnd1 & Hdisj & Hnd2).
  destruct (ensureDir_outcome (typesDir (config wxt)) fs)
    as (fsa & -> & Hfa & _ & _).
  destruct (Plan.runAll (Plan.first wxt entrypoints) fsa) as [[[]|e1] fs1]
    eqn:E1; [|discriminate].
  pose proof (runAll_frame _ _ _ _ E1) as (K1 & _). rewrite first_files in K1.
  pose proof (runAll_success _ _ _ ltac:(now rewrite first_files) E1) as S1.
  pose proof (readMessages_store wxt fs1) as Hs.
  pose proof (readMessages_frame wxt fs fs1) as Hr.
  destruct (readMessages wxt fs1) as [[messages|e2] fs2]; cbn [snd fst] in *;
    subst fs2; [|discriminate].
  intros E2. exists messages. split.
  { symmetry. apply Hr. intros catalog Hc. rewrite K1, Hfa; [reflexivity|].
    intros Hin. apply (Hcat _ Hc), in_app_iff. now left. }
  pose proof (runAll_frame _ _ _ _ E2) as (K2 & _). rewrite last_files in K2.
  pose proof (runAll_success _ _ _ ltac:(now rewrite last_files) E2) as S2.
  assert (forall step,
             In step (Plan.first wxt entrypoints) ->
             files fs' !! Plan.file step = Some (Plan.data step)) as S1'.
  { intros step Hin. rewrite List.Forall_forall in S1.
    rewrite K2; [now apply S1|]. apply Hdisj. rewrite <- first_files.
    now apply in_map. }
  rewrite List.Forall_forall in S2.
  split; [|split; [|repeat split]].
  - intros options Ho. unfold Plan.first in S1'. rewrite Ho in S1'.
    split.
    + apply (S1' (Plan.IfDifferent _ _)). now left.
    + intros He. rewrite He in S1'.
      apply (S1' (Plan.Overwrite _ _)). right. now left.
  - apply (S1' (Plan.IfDifferent _ _)). unfold Plan.first.
    apply in_app_iff. right. now left.
  - apply (S2 (Plan.IfDifferent _ _)). now left.
  - apply (S2 (Plan.IfDifferent _ _)). right. now left.
  - apply (S2 (Plan.IfDifferent _ _)). right. right. now left.
  - apply (S2 (Plan.IfDifferent _ _)). right. right. right. now left.
Qed.

(** X6: when the catalog, as the store holds it, is rejected, and is none of
    the files written before it is read, the run throws: the error of the
    catalog, or, the lint-globals file being enabled, the error of its
    write.  The files written after the reading of the catalog, the
    localization and globals declarations, the root file and the descriptor,
    are as they were, like every file but the ones written before. *)
Theorem generateTypesDir_catalog_abort (fs : FileSystem) (e : Error) :
  fst (readMessages wxt fs) = Throw e ->
  (forall catalog,
      Spec.catalogFile wxt = Some catalog ->
      ~ In catalog (Plan.firstTargets wxt)) ->
  exists e' fs',
    generateTypesDir wxt entrypoints fs = (Throw e', fs')
    /\ (e' = e
        \/ exists options,
            imports (config wxt) = Some options
            /\ enabled (eslintrc options) = true
            /\ e' = ENOENT (filePath (eslintrc options)))
    /\ forall path,
        ~ In path (Plan.firstTargets wxt) ->
        files fs' !! path = files fs !! path.
Proof.
  intros He Hcat. rewrite generateTypesDir_plan. unfold bind.
  destruct (ensureDir_outcome (typesDir (config wxt)) fs)
    as (fsa & -> & Hfa & _ & _).
  destruct (Plan.runAll (Plan.first wxt entrypoints) fsa) as [r1 fs1] eqn:E1.
  pose proof (runAll_frame _ _ _ _ E1) as (K1 & _). rewrite first_files in K1.
  assert (forall path,
             ~ In path (Plan.firstTargets wxt) ->
             files fs1 !! path = files fs !! path) as K
      by (intros path Hp; now rewrite K1, Hfa).
  destruct r1 as [[]|e1].
  - pose proof (readMessages_store wxt fs1) as Hs.
    pose proof (readMessages_frame wxt fs fs1) as Hr.
    rewrite He in Hr.
    destruct (readMessages wxt fs1) as [r2 fs2]; cbn [snd fst] in *;
      subst fs2.
    rewrite Hr by (intros catalog Hc; apply K, (Hcat _ Hc)).
    exists e, fs1. split; [reflexivity|]. split; [now left|exact K].
  - exists e1, fs1. split; [reflexivity|]. split; [|exact K].
    right. apply runAll_failure in E1 as (file & data & Hin & ->).
    unfold Plan.first in Hin.
    destruct (imports (config wxt)) as [options|].
    + exists options. split; [reflexivity|].
      destruct (enabled (eslintrc options)).
      * split; [reflexivity|]. cbn [app In] in Hin.
        destruct Hin as [Hin|[Hin|[Hin|[]]]]; try discriminate.
        now injection Hin as <- _.
      * cbn [app In] in Hin. destruct Hin as [Hin|[Hin|[]]]; discriminate.
    + cbn [app In] in Hin. destruct Hin as [Hin|[]]; discriminate.
Qed.

End PipelineByPlan.

Lemma generateTypesDir_postcondition_witness :
  let C := Example.linting in
  let run :=
    generateTypesDir Example.linted [Example.popup; Example.background] in
  let fs' := snd (run Example.fresh) in
  let unimport := Example.found [Example.useStore; Example.defineConfig] in
  List.NoDup (Plan.targets Example.linted)
  /\ Spec.catalogFile Example.linted = None
  /\ run Example.fresh = (Return tt, fs')
  /\ files fs' !! "/project/.wxt/types/imports.d.ts"
     = Some (importsDeclaration unimport)
  /\ files fs' !! "/project/.wxt/eslintrc-auto-import.json"
     = Some (JS.stringify ""
               (eslintrcJson (eslintGlobals unimport Example.lintOptions))
             +:+ JS.LF)
  /\ files fs' !! "/project/.wxt/wxt.d.ts"
     = Some (mainDeclaration Example.linted
               [ "/project/.wxt/types/imports.d.ts";
                 "/project/.wxt/types/paths.d.ts";
                 "/project/.wxt/types/i18n.d.ts";
                 "/project/.wxt/types/globals.d.ts" ]).
Proof.
  intros C run fs' unimport.
  assert (List.NoDup (Plan.targets Example.linted)) as Hnd.
  { vm_compute. repeat constructor; cbn [In]; intuition discriminate. }
  assert (run Example.fresh = (Return tt, fs')) as Hrun.
  { rewrite (surjective_pairing (run Example.fresh)).
    f_equal; vm_compute; reflexivity. }
  split; [exact Hnd|]. split; [reflexivity|]. split; [exact Hrun|].
  destruct (generateTypesDir_postcondition (C := C) Example.linted
              [Example.popup; Example.background] Example.fresh fs' Hnd
              ltac:(intros catalog [=]) Hrun)
    as (messages & _ & Himports & _ & _ & _ & Hmain & _).
  destruct (Himports Example.lintOptions eq_refl) as [Hi Hl].
  split; [exact Hi|]. split; [exact (Hl eq_refl)|exact Hmain].
Defined.

Lemma generateTypesDir_catalog_abort_witness :
  let C := Example.withAssets ["icon.png"] in
  let run :=
    generateTypesDir Example.localized [Example.popup; Example.background] in
  fst (readMessages Example.localized Example.fresh)
  = Throw (ENOENT Example.catalogPath)
  /\ ~ In Example.catalogPath (Plan.firstTargets Example.localized)
  /\ exists e' fs',
      run Example.fresh = (Throw e', fs')
      /\ (e' = ENOENT Example.catalogPath
          \/ exists options,
              imports (config Example.localized) = Some options
              /\ enabled (eslintrc options) = true
              /\ e' = ENOENT (filePath (eslintrc options)))
      /\ forall path,
          ~ In path (Plan.firstTargets Example.localized) ->
          files fs' !! path = files Example.fresh !! path.
Proof.
  intros C run.
  assert (~ In Example.catalogPath (Plan.firstTargets Example.localized))
    as Hc by (vm_compute; intuition discriminate).
  split; [reflexivity|]. split; [exact Hc|].
  apply (generateTypesDir_catalog_abort (C := C) Example.localized
           [Example.popup; Example.background] Example.fresh
           (ENOENT Example.catalogPath) eq_refl).
  intros catalog [= <-]. exact Hc.
Defined.

(** ** The templates and the inputs *)

Lemma join_head (sep m : string) (ms : list string) :
  exists rest, JS.join sep (m :: ms) = m +:+ rest.
Proof.
  destruct ms as [|m' ms].
  - exists "". cbn [JS.join String.concat]. now rewrite append_nil_r.
  - now exists (sep +:+ JS.join sep (m' :: ms)).
Qed.

Section TemplateFacts.

Context {C : Collaborators}.
Variable wxt : Wxt.

(** A union with a member is rendered as a text that opens with the bar
    and the quote of its first member. *)
Lemma unions_opening (entrypoints : list Entrypoint.t) :
  unionMembers wxt entrypoints <> [] ->
  exists rest,
    unions wxt entrypoints = "    | " +:+ JS.DQ +:+ rest.
Proof.
  intros Hne. unfold unions.
  destruct (unionMembers wxt entrypoints) as [|m ms] eqn:E; [congruence|].
  assert (In m (map unionMember
                  (map normalizePath (publicPaths wxt entrypoints))))
    as (p & <- & _)%in_map_iff.
  { apply (Permutation_in _
             (Permutation_sym (unionMembers_permutation wxt entrypoints))).
    rewrite E. now left. }
  destruct (join_head JS.LF (unionMember p) ms) as (rest & ->).
  exists (("/" +:+ p) +:+ JS.DQ +:+ rest).
  unfold unionMember, JS.quoted. now rewrite !append_assoc.
Qed.

(** The text with the member [| never] is rendered for the empty input
    only. *)
Lemma pathsDeclaration_never (entrypoints : list Entrypoint.t) :
  pathsDeclaration wxt entrypoints = Spec.neverDeclaration
  <-> entrypoints = [] /\ getPublicFiles = [].
Proof.
  split.
  - intros H.
    assert (unionMembers wxt entrypoints = []
            \/ unionMembers wxt entrypoints <> []) as [E|Hne]
        by (destruct (unionMembers wxt entrypoints); [now left|now right]).
    + apply (f_equal (@length string)) in E.
      rewrite unionMembers_length in E. cbn [length] in E.
      destruct entrypoints; [|discriminate].
      destruct getPublicFiles; [auto|discriminate].
    + exfalso. destruct (unions_opening entrypoints Hne) as (rest & E).
      assert (JS.or_else (unions wxt entrypoints) "    | never"
              = ("    | " +:+ JS.DQ) +:+ rest) as E'
          by (rewrite E; reflexivity).
      rewrite pathsDeclaration_split, E' in H.
      rewrite getSubstitution_prefix in H by reflexivity.
      change Spec.neverDeclaration
        with (Spec.pathsHead +:+ "    | never" +:+ Spec.pathsTail) in H.
      apply String.app_inj in H.
      apply (f_equal (String.get 6)) in H. lazy in H. discriminate.
  - intros [-> H].
    unfold pathsDeclaration, unions, unionMembers, publicPaths.
    rewrite H. reflexivity.
Qed.

(** X7: whatever the store holds, the file [paths.d.ts] that
    [writePathsDeclarationFile] leaves declares the union as [| never]
    exactly when there is neither an entrypoint nor a public asset: with
    one of either, the file written is another, whatever the paths hold. *)
Theorem never_member_only_when_empty (entrypoints : list Entrypoint.t)
  (fs : FileSystem) :
  files (snd (writePathsDeclarationFile wxt entrypoints fs))
  !! resolve [typesDir (config wxt); "paths.d.ts"]
  = Some Spec.neverDeclaration
  <-> entrypoints = [] /\ getPublicFiles = [].
Proof.
  destruct (emits_store _ _ _ _ _
              (writePathsDeclarationFile_emits wxt entrypoints fs))
    as [_ Hf].
  rewrite Hf. rewrite <- pathsDeclaration_never.
  split; [intros H; congruence|intros ->; reflexivity].
Qed.

(** X8: without a default locale, absent or the empty string, the
    localization generator does not read the store: whatever the store
    holds, it writes the overloads of the messages the parser gives for the
    empty catalog, and throws what the parser throws for it. *)
Theorem i18n_without_locale (fs : FileSystem) :
  default_locale (config wxt) = None \/ default_locale (config wxt) = Some "" ->
  match parseI18nMessages (JS.JObj []) with
  | Return messages =>
      exists fs',
        writeI18nDeclarationFile wxt fs
        = (Return (resolve [typesDir (config wxt); "i18n.d.ts"]), fs')
        /\ files fs'
           = <[resolve [typesDir (config wxt); "i18n.d.ts"] :=
                 i18nDeclaration messages]> (files fs)
  | Throw e => writeI18nDeclarationFile wxt fs = (Throw e, fs)
  end.
Proof.
  intros H. unfold writeI18nDeclarationFile, bind.
  rewrite (readMessages_without_locale wxt fs H).
  destruct (parseI18nMessages (JS.JObj [])) as [messages|e]; [|reflexivity].
  destruct (writeFileIfDifferent_spec fs
              (resolve [typesDir (config wxt); "i18n.d.ts"])
              (i18nDeclaration messages)) as (fs' & -> & Hf & _).
  exists fs'. split; [reflexivity|exact Hf].
Qed.

(** X9: the paths declaration file does not depend on the order of the
    entrypoints. *)
Theorem paths_order_independent (entrypoints entrypoints' : list Entrypoint.t) :
  Permutation entrypoints entrypoints' ->
  unionMembers wxt entrypoints = unionMembers wxt entrypoints'
  /\ pathsDeclaration wxt entrypoints = pathsDeclaration wxt entrypoints'.
Proof.
  intros Hp.
  assert (unionMembers wxt entrypoints = unionMembers wxt entrypoints') as E.
  { apply sorted_permutation_unique; try apply unionMembers_sorted.
    rewrite <- (unionMembers_permutation wxt entrypoints).
    rewrite <- (unionMembers_permutation wxt entrypoints').
    unfold publicPaths. do 2 apply Permutation_map.
    apply Permutation_app_tail. now apply Permutation_map. }
  split; [exact E|]. unfold pathsDeclaration, unions. now rewrite E.
Qed.

End TemplateFacts.

Lemma i18n_without_locale_witness :
  let C := Example.withAssets [] in
  let empty :=
    {| config :=
         {| root := "/project";
            srcDir := "/project";
            publicDir := "/project/public";
            wxtDir := "/project/.wxt";
            typesDir := "/project/.wxt/types";
            outBaseDir := "/project/.output";
            outDir := "/project/.output/chrome-mv3";
            imports := None;
            default_locale := Some "";
            modules := [];
            alias := [] |} |} in
  (default_locale (config empty) = None
   \/ default_locale (config empty) = Some "")
  /\ exists fs',
      writeI18nDeclarationFile empty Example.fresh
      = (Return "/project/.wxt/types/i18n.d.ts", fs')
      /\ files fs'
         = <["/project/.wxt/types/i18n.d.ts" := i18nDeclaration []]>
             (files Example.fresh).
Proof.
  intros C empty. split; [now right|].
  exact (i18n_without_locale (C := C) empty Example.fresh
           (or_intror eq_refl)).
Defined.

Lemma paths_order_independent_witness :
  let C := Example.withAssets ["icon.png"] in
  Permutation [Example.popup; Example.background]
    [Example.background; Example.popup]
  /\ unionMembers Example.wxt [Example.popup; Example.background]
     = unionMembers Example.wxt [Example.background; Example.popup]
  /\ pathsDeclaration Example.wxt [Example.popup; Example.background]
     = pathsDeclaration Example.wxt [Example.background; Example.popup].
Proof.
  intros C. split; [apply perm_swap|].
  apply (paths_order_independent (C := C) Example.wxt), perm_swap.
Defined.

(** ** The lint-globals file and the order of the imports *)

Lemma filter_permutation {A} (f : A -> bool) (l l' : list A) :
  Permutation l l' -> Permutation (List.filter f l) (List.filter f l').
Proof.
  induction 1 as [|x l l' _ IH|x y l|l l' l'' _ IH1 _ IH2]; cbn [List.filter].
  - constructor.
  - destruct (f x); [now constructor|exact IH].
  - destruct (f x), (f y); try reflexivity. apply perm_swap.
  - now transitivity (List.filter f l').
Qed.

Lemma define_again {V} (o : JS.object V) (k : string) (v : V) :
  JS.define (JS.define o k v) k v = JS.define o k v.
Proof.
  induction o as [|[k' v'] o IH]; cbn [JS.define].
  - now rewrite String.eqb_refl.
  - destruct (String.eqb k' k) eqn:E; cbn [JS.define].
    + now rewrite E.
    + destruct (JS.precedes k k') eqn:Ep; cbn [JS.define].
      * now rewrite String.eqb_refl.
      * now rewrite E, Ep, IH.
Qed.

Lemma set_again {V} (o : JS.object V) (k : string) (v : V) :
  JS.set (JS.set o k v) k v = JS.set o k v.
Proof.
  unfold JS.set. destruct (String.eqb k "__proto__"); [reflexivity|].
  apply define_again.
Qed.

Lemma distinct_In (l : list string) (x : string) :
  In x (Text.distinct l) <-> In x l.
Proof.
  induction l as [|a [|b l] IH]; [reflexivity..|].
  cbn [Text.distinct]. destruct (String.eqb a b) eqn:E.
  - apply String.eqb_eq in E. subst b. rewrite IH. cbn [In]. tauto.
  - change (In x (a :: Text.distinct (b :: l)) <-> In x (a :: b :: l)).
    cbn [In] in *. tauto.
Qed.

Lemma distinct_sorted (l : list string) :
  StronglySorted JS.le l ->
  StronglySorted JS.le (Text.distinct l) /\ List.NoDup (Text.distinct l).
Proof.
  induction l as [|a [|b l] IH]; intros Hs.
  - split; constructor.
  - split; [exact Hs|]. repeat constructor. intros [].
  - apply StronglySorted_inv in Hs as [Hs Ha].
    destruct (IH Hs) as [IHs IHd]. cbn [Text.distinct].
    destruct (String.eqb a b) eqn:E; [now split|].
    apply String.eqb_neq in E.
    change (StronglySorted JS.le (a :: Text.distinct (b :: l))
            /\ List.NoDup (a :: Text.distinct (b :: l))).
    rewrite List.Forall_forall in Ha. split.
    + constructor; [exact IHs|]. apply List.Forall_forall.
      intros x Hx. apply Ha. now apply distinct_In.
    + constructor; [|exact IHd]. intros Hin.
      apply (proj1 (distinct_In (b :: l) a)) in Hin.
      apply StronglySorted_inv in Hs as [_ Hb].
      rewrite List.Forall_forall in Hb.
      destruct (in_inv Hin) as [Hab|Hal]; [now apply E|].
      apply E. apply String.leb_antisym; [apply Ha; now left|].
      now apply Hb.
Qed.

Lemma fold_assign_distinct (value : EslintGlobalsPropValue)
  (l : list string) (o : JS.object EslintGlobalsPropValue) :
  fold_left (fun globals name => JS.set globals name value)
    (Text.distinct l) o
  = fold_left (fun globals name => JS.set globals name value) l o.
Proof.
  revert o. induction l as [|a [|b l] IH]; intros o; [reflexivity..|].
  cbn [Text.distinct]. destruct (String.eqb a b) eqn:E.
  - apply String.eqb_eq in E. subst b. rewrite IH.
    cbn [fold_left]. now rewrite set_again.
  - change (fold_left (fun globals name => JS.set globals name value)
              (Text.distinct (b :: l)) (JS.set o a value)
            = fold_left (fun globals name => JS.set globals name value)
                (b :: l) (JS.set o a value)).
    apply IH.
Qed.

(** X10: the lint-globals object, and with it the file, depends on the set
    of the bound names of the imports only: neither on the order in which
    the engine lists them nor on how often a name is bound. *)
Theorem eslint_names_as_set
  (unimport unimport' : Unimport) (options : WxtResolvedUnimportOptions) :
  (forall name,
      In name (map Spec.boundName (getImports unimport))
      <-> In name (map Spec.boundName (getImports unimport'))) ->
  eslintGlobals unimport options = eslintGlobals unimport' options.
Proof.
  intros Hset. unfold eslintGlobals.
  rewrite <- (fold_assign_distinct _ (eslintNames unimport)).
  rewrite <- (fold_assign_distinct _ (eslintNames unimport')).
  f_equal.
  destruct (distinct_sorted (eslintNames unimport) (sort_sorted _))
    as [S1 D1].
  destruct (distinct_sorted (eslintNames unimport') (sort_sorted _))
    as [S2 D2].
  apply sorted_permutation_unique; [exact S1|exact S2|].
  apply Permutation.NoDup_Permutation; [exact D1|exact D2|].
  intros name. rewrite !distinct_In, !eslintNames_spec.
  assert (forall u,
             (exists i, In i (getImports u) /\ Spec.boundName i = name)
             <-> In name (map Spec.boundName (getImports u))) as Hmap.
  { intros u. rewrite in_map_iff. split; intros (i & H1 & H2); eauto. }
  rewrite !Hmap, Hset. reflexivity.
Qed.

Lemma eslint_names_as_set_witness :
  let once := Example.found [Example.useStore; Example.defineConfig] in
  let twice :=
    Example.found [Example.defineConfig; Example.useStore; Example.defineConfig]
  in
  (forall name,
      In name (map Spec.boundName (getImports once))
      <-> In name (map Spec.boundName (getImports twice)))
  /\ eslintGlobals once Example.lintOptions
     = eslintGlobals twice Example.lintOptions.
Proof.
  intros once twice.
  assert (forall name,
             In name (map Spec.boundName (getImports once))
             <-> In name (map Spec.boundName (getImports twice))) as H
      by (intros name; cbn; tauto).
  split; [exact H|].
  exact (eslint_names_as_set once twice Example.lintOptions H).
Defined.

(** ** Texts that [String.prototype.replace] inserts as they are *)

Lemma patternFree_cons (c d : ascii) (r : string) :
  Text.patternFree (String c (String d r))
  = if (Ascii.eqb c "$"
        && (Ascii.eqb d "$" || Ascii.eqb d "&" || Ascii.eqb d "096"
            || Ascii.eqb d "'"))%bool
    then false
    else Text.patternFree (String d r).
Proof. reflexivity. Qed.

Lemma getSubstitution_patternFree (matched before after r : string) :
  Text.patternFree r = true ->
  JS.getSubstitution matched before after r = r.
Proof.
  induction r as [|c r IH]; [reflexivity|].
  destruct r as [|d r'].
  - intros _. cbn [JS.getSubstitution].
    destruct (Ascii.eqb c "$"); reflexivity.
  - rewrite patternFree_cons. intros H.
    destruct (Ascii.eqb c "$") eqn:Ec.
    + apply Ascii.eqb_eq in Ec. subst c. rewrite getSubstitution_dollar.
      cbn [andb] in H.
      destruct (Ascii.eqb d "$"); [discriminate|].
      destruct (Ascii.eqb d "&"); [discriminate|].
      destruct (Ascii.eqb d "096"); [discriminate|].
      destruct (Ascii.eqb d "'"); [discriminate|].
      cbn [orb] in H. now rewrite IH.
    + cbn [andb] in H. rewrite getSubstitution_other by exact Ec.
      now rewrite IH.
Qed.

(** X11: a union and overloads that hold none of the patterns [$$], [$&],
    [$`] and [$'] reach their files as they are, between the two parts of
    the template; a [$] elsewhere, as in the placeholders [$1] and [$NAME$]
    of a message, does no harm. *)
Theorem texts_without_patterns_kept
  (C : Collaborators) (wxt : Wxt) (entrypoints : list Entrypoint.t)
  (messages : list Message.t) :
  (unionMembers wxt entrypoints <> [] ->
   Text.patternFree (JS.join JS.LF (unionMembers wxt entrypoints)) = true ->
   pathsDeclaration wxt entrypoints
   = Spec.pathsHead +:+ JS.join JS.LF (unionMembers wxt entrypoints)
     +:+ Spec.pathsTail)
  /\ (Text.patternFree (JS.join JS.LF (map override messages)) = true ->
      i18nDeclaration messages
      = Spec.i18nHead +:+ JS.join JS.LF (map override messages)
        +:+ Spec.i18nTail).
Proof.
  split.
  - intros Hne Hp. rewrite pathsDeclaration_split.
    destruct (unions_opening wxt entrypoints Hne) as (rest & E).
    assert (JS.or_else (unions wxt entrypoints) "    | never"
            = unions wxt entrypoints) as -> by (rewrite E; reflexivity).
    unfold unions. now rewrite getSubstitution_patternFree.
  - intros Hp. rewrite i18nDeclaration_split. unfold overrides.
    now rewrite getSubstitution_patternFree.
Qed.

(** The message [Hello $USER$, you have $1 items] is documented as it is. *)
Lemma texts_without_patterns_kept_witness :
  let C := Example.withAssets ["a$b.png"] in
  let message :=
    {| Message.name := "hello";
       Message.message := "Hello $USER$, you have $1 items";
       Message.description := None |} in
  unionMembers Example.wxt [] <> []
  /\ Text.patternFree (JS.join JS.LF (unionMembers Example.wxt [])) = true
  /\ Text.patternFree (JS.join JS.LF (map override [message])) = true
  /\ pathsDeclaration Example.wxt []
     = Spec.pathsHead +:+ JS.join JS.LF (unionMembers Example.wxt [])
       +:+ Spec.pathsTail
  /\ i18nDeclaration [message]
     = Spec.i18nHead +:+ JS.join JS.LF (map override [message])
       +:+ Spec.i18nTail.
Proof.
  intros C message.
  assert (unionMembers Example.wxt [] <> []) as Hne
      by (vm_compute; discriminate).
  assert (Text.patternFree (JS.join JS.LF (unionMembers Example.wxt []))
          = true) as Hp by (vm_compute; reflexivity).
  assert (Text.patternFree (JS.join JS.LF (map override [message])) = true)
    as Hm by (vm_compute; reflexivity).
  split; [exact Hne|]. split; [exact Hp|]. split; [exact Hm|].
  destruct (texts_without_patterns_kept C Example.wxt [] [message])
    as [Hpaths Hi18n].
  split; [exact (Hpaths Hne Hp)|exact (Hi18n Hm)].
Defined.
